(** * Sourcegraph MCP server: session registry, tool handlers, query translation

    A shallow embedding of the parts of the TypeScript/JavaScript sources that
    carry observable state or build query strings:

    - [http-server.ts]: the [connections] map and the [/sse] and [/messages]
      handlers;
    - [mcp-server.js] and [test-tools.ts]: the tool handlers registered by
      [createServer];
    - [services/natural-language.ts], [services/llm.ts] and
      [utils/formatter.ts]: the natural-language translation path.

    JavaScript strings are modelled as [string] (8-bit code units), thrown
    values as [JsError] records, and effectful code in a state monad whose
    state survives a [throw], as it does in JavaScript. *)

From Stdlib Require Import String Ascii List Bool Arith Lia DecimalString.
Import ListNotations.
Local Open Scope list_scope.
Local Open Scope string_scope.

(* ===================================================================== *)
(** ** Thrown values and effectful computations *)
(* ===================================================================== *)

(** An [Error] object; only [error.message] is ever inspected. *)
Record JsError : Type := mkError { message : string }.

(** What an [async] function settles to. *)
Inductive Outcome (A : Type) : Type :=
| Returned (a : A)
| Thrown (e : JsError).
Arguments Returned {A} a.
Arguments Thrown {A} e.

(** A computation over a mutable store [S].  A throw leaves the store as it
    was at the point of the throw: nothing is rolled back. *)
Definition Eff (S A : Type) : Type := S -> Outcome A * S.

Definition ret {S A} (a : A) : Eff S A := fun s => (Returned a, s).

Definition bind {S A B} (c : Eff S A) (k : A -> Eff S B) : Eff S B :=
  fun s =>
    match c s with
    | (Returned a, s') => k a s'
    | (Thrown e, s') => (Thrown e, s')
    end.

Definition throw {S A} (e : JsError) : Eff S A := fun s => (Thrown e, s).

(** [try { body } catch (error) { handler }] *)
Definition try_catch {S A} (body : Eff S A) (handler : JsError -> Eff S A)
  : Eff S A :=
  fun s =>
    match body s with
    | (Returned a, s') => (Returned a, s')
    | (Thrown e, s') => handler e s'
    end.

Definition get_store {S} : Eff S S := fun s => (Returned s, s).
Definition modify {S} (f : S -> S) : Eff S unit := fun s => (Returned tt, f s).

(** Lifting an already settled outcome (the result of an external call). *)
Definition settle {S A} (o : Outcome A) : Eff S A := fun s => (o, s).

(** [c] settles to a value satisfying [P], from every store. *)
Definition total {S A} (P : A -> Prop) (c : Eff S A) : Prop :=
  forall s, exists a, fst (c s) = Returned a /\ P a.

(** Whenever [c] returns rather than throws, the value satisfies [P]. *)
Definition partial {S A} (P : A -> Prop) (c : Eff S A) : Prop :=
  forall s a, fst (c s) = Returned a -> P a.

Declare Scope eff_scope.
Delimit Scope eff_scope with eff.
Notation "x <- c ;; k" := (bind c (fun x => k))
  (at level 61, c at next level, right associativity) : eff_scope.
Notation "c ;;; k" := (bind c (fun _ => k))
  (at level 61, right associativity) : eff_scope.

(** JavaScript truthiness of a possibly-undefined string. *)
Definition truthy (s : option string) : bool :=
  match s with
  | None => false
  | Some v => negb (v =? "")
  end.

(** [a || b] on possibly-undefined strings. *)
Definition js_or (a b : option string) : option string :=
  if truthy a then a else b.

(** [error.message || 'Unknown error'] *)
Definition message_or (e : JsError) (dflt : string) : string :=
  if message e =? "" then dflt else message e.

(* ===================================================================== *)
(** ** A JavaScript [Map] keyed by strings *)
(* ===================================================================== *)

(** A [Map] iterates in insertion order, so it is an association list.
    [set] on a key already present replaces the value in place and keeps the
    entry's position; on a fresh key it appends. *)
Module JsMap.
Section WithValues.
Context {V : Type}.

Definition t : Type := list (string * V).

Definition empty : t := [].

Fixpoint get (k : string) (m : t) : option V :=
  match m with
  | [] => None
  | (k', v) :: m' => if k' =? k then Some v else get k m'
  end.

Definition has (k : string) (m : t) : bool :=
  match get k m with Some _ => true | None => false end.

Fixpoint set (k : string) (v : V) (m : t) : t :=
  match m with
  | [] => [(k, v)]
  | (k', v') :: m' =>
      if k' =? k then (k, v) :: m' else (k', v') :: set k v m'
  end.

Fixpoint delete (k : string) (m : t) : t :=
  match m with
  | [] => []
  | (k', v') :: m' =>
      if k' =? k then delete k m' else (k', v') :: delete k m'
  end.

Definition size (m : t) : nat := length m.

(** [m.values().next().value] *)
Definition first_value (m : t) : option V :=
  match m with
  | [] => None
  | (_, v) :: _ => Some v
  end.

Definition keys (m : t) : list string := map fst m.
Definition values (m : t) : list V := map snd m.

End WithValues.
Arguments t V : clear implicits.
End JsMap.

(* ===================================================================== *)
(** ** JavaScript strings and regular expressions *)
(* ===================================================================== *)

(** The fragment of [String.prototype] and [RegExp] that the sources use,
    with the matching order of a backtracking engine: alternatives are tried
    left to right, quantifiers are greedy, and the leftmost match wins.
    Strings are processed as lists of 8-bit code units. *)
Module Js.

Definition chars : Type := list ascii.

Definition of_string (s : string) : chars := list_ascii_of_string s.
Definition to_string (l : chars) : string := string_of_list_ascii l.

(** The line feed and the double-quote character, as one-character strings. *)
Definition nl : string := String (ascii_of_nat 10) EmptyString.
Definition dq : string := String (ascii_of_nat 34) EmptyString.

(** [s.includes(needle)] *)
Fixpoint includes_from (needle : string) (s : string) : bool :=
  if String.prefix needle s then true
  else match s with
       | EmptyString => false
       | String _ s' => includes_from needle s'
       end.

Definition includes (s needle : string) : bool := includes_from needle s.

(** Number of positions of [s] at which [needle] starts. *)
Fixpoint occurrences (needle : string) (s : string) : nat :=
  (if String.prefix needle s then 1 else 0) +
  match s with
  | EmptyString => 0
  | String _ s' => occurrences needle s'
  end.

Definition code (c : ascii) : nat := nat_of_ascii c.

Definition between (lo hi : nat) (c : ascii) : bool :=
  (lo <=? code c)%nat && (code c <=? hi)%nat.

Definition is_digit (c : ascii) : bool := between 48 57 c.
Definition is_upper (c : ascii) : bool := between 65 90 c.
Definition is_lower (c : ascii) : bool := between 97 122 c.

(** [\w] *)
Definition is_word (c : ascii) : bool :=
  is_digit c || is_upper c || is_lower c || (code c =? 95)%nat.

(** [\s] on 8-bit code units: tab, line feed, vertical tab, form feed,
    carriage return, space and the no-break space U+00A0.  The other
    members of the class (U+1680, U+2000 to U+200A, U+2028, U+2029, U+202F,
    U+205F, U+3000, U+FEFF) are code units above 255. *)
Definition is_space (c : ascii) : bool :=
  between 9 13 c || (code c =? 32)%nat || (code c =? 160)%nat.

(** Line terminators, which [.] does not match. *)
Definition is_newline (c : ascii) : bool :=
  (code c =? 10)%nat || (code c =? 13)%nat.

Definition is_quote (c : ascii) : bool :=
  (code c =? 34)%nat || (code c =? 39)%nat.

Definition to_lower (c : ascii) : ascii :=
  if is_upper c then ascii_of_nat (code c + 32) else c.

Definition is_char (x : ascii) (c : ascii) : bool := Ascii.eqb x c.

(** A literal character under the [i] flag. *)
Definition is_char_i (x : ascii) (c : ascii) : bool :=
  Ascii.eqb (to_lower x) (to_lower c).

(** [s.trim()] *)
Fixpoint trim_start (l : chars) : chars :=
  match l with
  | c :: l' => if is_space c then trim_start l' else l
  | [] => []
  end.

Definition trim_chars (l : chars) : chars :=
  rev (trim_start (rev (trim_start l))).

Definition trim (s : string) : string := to_string (trim_chars (of_string s)).

(** *** Patterns *)

Inductive Regex : Type :=
| Eps                                  (* the empty pattern *)
| Class (p : ascii -> bool)            (* one character of a class *)
| Plus (p : ascii -> bool)             (* [c+], greedy, for a class [c] *)
| Seq (r1 r2 : Regex)
| Alt (r1 r2 : Regex)                  (* [r1|r2], [r1] first *)
| Opt (r : Regex)                      (* [(?:r)?], greedy *)
| Group (n : nat) (r : Regex)          (* the n-th capturing group *)
| WordBoundary.                        (* [\b] *)

(** Where the matcher stands: the character just before the position, the
    input still ahead, and the groups captured so far. *)
Record Cursor : Type := mkCursor {
  behind : option ascii;
  ahead : chars;
  captures : list (nat * chars)
}.

Definition word_at (c : option ascii) : bool :=
  match c with Some x => is_word x | None => false end.

Definition at_boundary (c : Cursor) : bool :=
  xorb (word_at (behind c)) (word_at (hd_error (ahead c))).

Section Matching.
Context {R : Type}.

(** Zero or more characters of the class, longest run first. *)
Fixpoint star_class (p : ascii -> bool) (b : option ascii) (l : chars)
  (caps : list (nat * chars)) (k : Cursor -> option R) : option R :=
  match l with
  | x :: l' =>
      if p x then
        match star_class p (Some x) l' caps k with
        | Some v => Some v
        | None => k (mkCursor b l caps)
        end
      else k (mkCursor b l caps)
  | [] => k (mkCursor b l caps)
  end.

(** [match_at r c k]: match [r] at [c], then continue with [k]; [None]
    makes the matcher backtrack into the most recent choice. *)
Fixpoint match_at (r : Regex) (c : Cursor) (k : Cursor -> option R) : option R :=
  match r with
  | Eps => k c
  | Class p =>
      match ahead c with
      | x :: l' => if p x then k (mkCursor (Some x) l' (captures c)) else None
      | [] => None
      end
  | Plus p =>
      match ahead c with
      | x :: l' => if p x then star_class p (Some x) l' (captures c) k else None
      | [] => None
      end
  | Seq r1 r2 => match_at r1 c (fun c' => match_at r2 c' k)
  | Alt r1 r2 =>
      match match_at r1 c k with
      | Some v => Some v
      | None => match_at r2 c k
      end
  | Opt r1 =>
      match match_at r1 c k with
      | Some v => Some v
      | None => k c
      end
  | Group n r1 =>
      match_at r1 c (fun c' =>
        let text := firstn (length (ahead c) - length (ahead c')) (ahead c) in
        k (mkCursor (behind c') (ahead c') ((n, text) :: captures c')))
  | WordBoundary => if at_boundary c then k c else None
  end.

End Matching.

(** A successful match: the text before it, the matched text, the text after
    it, and the captured groups. *)
Record Match : Type := mkMatch {
  m_before : chars;
  m_text : chars;
  m_after : chars;
  m_groups : list (nat * chars)
}.

(** Match [r] at the position that has [b] behind and [l] ahead. *)
Definition match_here (r : Regex) (b : option ascii) (l : chars)
  : option (chars * chars * list (nat * chars)) :=
  match_at r (mkCursor b l [])
      (fun c' => Some (firstn (length l - length (ahead c')) l, ahead c', captures c')).

(** Leftmost match at or after the current position; [pre] is the text
    already passed, in reverse. *)
Fixpoint search_from (r : Regex) (pre : chars) (b : option ascii) (l : chars)
  : option Match :=
  match match_here r b l with
  | Some (text, rest, groups) => Some (mkMatch (rev pre) text rest groups)
  | None =>
      match l with
      | x :: l' => search_from r (x :: pre) (Some x) l'
      | [] => None
      end
  end.

(** [regex.exec(s)] for a regex without the [g] flag. *)
Definition search (r : Regex) (s : chars) : option Match := search_from r [] None s.

(** [regex.test(s)] *)
Definition test (r : Regex) (s : string) : bool :=
  match search r (of_string s) with Some _ => true | None => false end.

Fixpoint group (n : nat) (groups : list (nat * chars)) : option chars :=
  match groups with
  | [] => None
  | (n', text) :: groups' => if (n' =? n)%nat then Some text else group n groups'
  end.

(** [s.match(regex)[n]] for a regex without the [g] flag. *)
Definition match_group (r : Regex) (n : nat) (s : string) : option string :=
  match search r (of_string s) with
  | Some m => option_map to_string (group n (m_groups m))
  | None => None
  end.

(** [s.replace(regex, by)] for a regex without the [g] flag. *)
Definition replace (r : Regex) (by_ : string) (s : string) : string :=
  match search r (of_string s) with
  | Some m => to_string (m_before m ++ of_string by_ ++ m_after m)%list
  | None => s
  end.

Definition last_of (l : chars) (dflt : option ascii) : option ascii :=
  match rev l with x :: _ => Some x | [] => dflt end.

(** All successive matches, scanning left to right; after an empty match
    the scan moves on by one character.  [fuel] bounds the number of scan
    steps and is taken larger than the input. *)
Fixpoint scan (fuel : nat) (r : Regex) (b : option ascii) (l : chars)
  : list (chars * option (chars * list (nat * chars))) :=
  match fuel with
  | 0 => []
  | S fuel' =>
      match match_here r b l with
      | Some (text, rest, groups) =>
          match text with
          | [] =>
              ([], Some (text, groups)) ::
              match l with
              | x :: l' => ([x], None) :: scan fuel' r (Some x) l'
              | [] => []
              end
          | _ :: _ => ([], Some (text, groups)) :: scan fuel' r (last_of text b) rest
          end
      | None =>
          match l with
          | x :: l' => ([x], None) :: scan fuel' r (Some x) l'
          | [] => []
          end
      end
  end.

Definition scan_all (r : Regex) (s : chars)
  : list (chars * option (chars * list (nat * chars))) :=
  scan (S (length s)) r None s.

(** [s.replace(regex, by)] for a regex with the [g] flag. *)
Definition replace_all (r : Regex) (by_ : string) (s : string) : string :=
  to_string
    (flat_map (fun piece =>
                 match piece with
                 | (_, Some _) => of_string by_
                 | (kept, None) => kept
                 end)
              (scan_all r (of_string s))).

(** The matches found by repeated [regex.exec(s)] with the [g] flag, which
    are also the elements of [s.match(regex)]. *)
Definition match_all (r : Regex) (s : string) : list (chars * list (nat * chars)) :=
  flat_map (fun piece =>
              match piece with
              | (_, Some m) => [m]
              | (_, None) => []
              end)
           (scan_all r (of_string s)).

(** *** Building patterns *)

Fixpoint seq_of (rs : list Regex) : Regex :=
  match rs with
  | [] => Eps
  | [r] => r
  | r :: rs' => Seq r (seq_of rs')
  end.

(** A literal word. *)
Definition lit (s : string) : Regex := seq_of (map (fun x => Class (is_char x)) (of_string s)).

(** A literal word under the [i] flag. *)
Definition lit_i (s : string) : Regex := seq_of (map (fun x => Class (is_char_i x)) (of_string s)).

Fixpoint alt_of (rs : list Regex) : Regex :=
  match rs with
  | [] => Eps
  | [r] => r
  | r :: rs' => Alt r (alt_of rs')
  end.

(** The pattern obtained when a string made of word characters, [.], [-]
    and [/] is spliced into the source of a [new RegExp(..., 'i')]: a dot
    is the wildcard, every other character stands for itself. *)
Definition spliced_i (s : string) : Regex :=
  seq_of (map (fun x => if is_char "." x
                        then Class (fun c => negb (is_newline c))
                        else Class (is_char_i x))
              (of_string s)).

End Js.

(* ===================================================================== *)
(** ** Untyped values, the environment and the network *)
(* ===================================================================== *)

Module Runtime.
Local Open Scope eff_scope.

(** Values of type [any]: parsed JSON bodies and what is read out of them. *)
#[warnings="-register-all"]
Inductive JsValue : Type :=
| JUndefined
| JNull
| JBool (b : bool)
| JNumber (n : nat)
| JString (s : string)
| JArray (items : list JsValue)
| JObject (fields : list (string * JsValue)).

Definition js_truthy (v : JsValue) : bool :=
  match v with
  | JUndefined | JNull => false
  | JBool b => b
  | JNumber n => negb (n =? 0)%nat
  | JString s => negb (s =? "")
  | JArray _ | JObject _ => true
  end.

Fixpoint field (name : string) (fields : list (string * JsValue)) : JsValue :=
  match fields with
  | [] => JUndefined
  | (k, v) :: fields' => if k =? name then v else field name fields'
  end.

(** [v.name]: a [TypeError] on [undefined] and [null], [undefined] when the
    property does not exist. *)
Definition prop (v : JsValue) (name : string) : Outcome JsValue :=
  match v with
  | JUndefined =>
      Thrown (mkError ("Cannot read properties of undefined (reading '" ++ name ++ "')"))
  | JNull =>
      Thrown (mkError ("Cannot read properties of null (reading '" ++ name ++ "')"))
  | JObject fields => Returned (field name fields)
  | _ => Returned JUndefined
  end.

(** [v?.name] *)
Definition opt_prop (v : JsValue) (name : string) : JsValue :=
  match v with
  | JObject fields => field name fields
  | _ => JUndefined
  end.

(** [v[0]] *)
Definition first_item (v : JsValue) : Outcome JsValue :=
  match v with
  | JUndefined => Thrown (mkError "Cannot read properties of undefined (reading '0')")
  | JNull => Thrown (mkError "Cannot read properties of null (reading '0')")
  | JArray (x :: _) => Returned x
  | _ => Returned JUndefined
  end.

(** [v.trim()], where [callee] is the text of the expression [v] in the
    source: defined on strings only; on another value the [TypeError] names
    the callee. *)
Definition call_trim (callee : string) (v : JsValue) : Outcome string :=
  match v with
  | JString s => Returned (Js.trim s)
  | JUndefined => Thrown (mkError "Cannot read properties of undefined (reading 'trim')")
  | JNull => Thrown (mkError "Cannot read properties of null (reading 'trim')")
  | _ => Thrown (mkError (callee ++ ".trim is not a function"))
  end.

(** [String(v)], the coercion applied inside a template literal. *)
Fixpoint display (v : JsValue) : string :=
  match v with
  | JUndefined => "undefined"
  | JNull => "null"
  | JBool true => "true"
  | JBool false => "false"
  | JNumber n => NilZero.string_of_uint (Nat.to_uint n)
  | JString s => s
  | JArray items =>
      (fix join (l : list JsValue) : string :=
         match l with
         | [] => ""
         | [x] => display x
         | x :: l' => display x ++ "," ++ join l'
         end) items
  | JObject _ => "[object Object]"
  end.

(** A promise that nobody awaited, seen as a plain object: it has none of
    the properties of the value it will settle to. *)
Definition pending_promise : JsValue := JObject [].

(** The variables of [process.env] that the program reads. *)
Record Env : Type := mkEnv {
  SOURCEGRAPH_URL : option string;
  SOURCEGRAPH_TOKEN : option string;
  LLM_PROVIDER : option string;
  OPENAI_API_KEY : option string;
  OPENAI_MODEL : option string;
  ANTHROPIC_API_KEY : option string;
  ANTHROPIC_MODEL : option string
}.

(** The three search documents of [services/sourcegraph] and the probe of
    [test-connection], named rather than spelled out. *)
Inductive GraphqlDocument : Type :=
| FileSearch
| CommitSearch
| DiffSearch
| CurrentUser.

(** An outgoing [axios.post]: the GraphQL endpoint of the search platform
    with the document and its [query] variable, the chat endpoint of OpenAI
    with the user message, or the completion endpoint of Anthropic with the
    prompt. *)
Inductive Request : Type :=
| SourcegraphPost (url : string) (authorization : string)
                  (document : GraphqlDocument) (query : option string)
| OpenAiPost (authorization : string) (model : string) (content : string)
| AnthropicPost (api_key : string) (model : string) (prompt : string).

Definition to_search_platform (r : Request) : bool :=
  match r with
  | SourcegraphPost _ _ _ _ => true
  | _ => false
  end.

(** The store tool handlers run in: [process.env] as it is now, and the
    requests sent so far, oldest first. *)
Record World : Type := mkWorld {
  env : Env;
  requests : list Request
}.

Definition process_env {A} (read : Env -> A) : Eff World A :=
  fun w => (Returned (read (env w)), w).

(** [await axios.post(...)]: the request goes out, then the call settles as
    the remote end decides; the value is [response.data]. *)
Definition axios_post (answer : Request -> Outcome JsValue) (r : Request)
  : Eff World JsValue :=
  fun w => (answer r, mkWorld (env w) (requests w ++ [r])%list).

(** Calling an [async] function without [await]: what it does happens, what
    it settles to is not looked at. *)
Definition floating {A} (c : Eff World A) : Eff World unit :=
  fun w => (Returned tt, snd (c w)).

End Runtime.

(* ===================================================================== *)
(** ** Query translation ([services/llm.ts], [utils/formatter.ts]) *)
(* ===================================================================== *)

Module Formatter.
Import Runtime.
Import Js.
Local Open Scope eff_scope.

(** The object returned by [parseSourcegraphQuery] and [parseWithRules]. *)
Record QueryAnalysis : Type := mkAnalysis {
  qa_type : string;
  qa_query : string;
  qa_author : option string;
  qa_after : option string;
  qa_repos : list string;
  qa_originalQuery : string
}.

Definition or_chars (p q : ascii -> bool) (c : ascii) : bool := p c || q c.
Definition not_chars (p : ascii -> bool) (c : ascii) : bool := negb (p c).

(** [[\w.-]] and [[\w\/.-]] *)
Definition name_char : ascii -> bool :=
  or_chars is_word (or_chars (is_char ".") (is_char "-")).
Definition path_char : ascii -> bool :=
  or_chars name_char (is_char "/").

(** [[Q'][^Q']+[Q']|\S+], writing [Q] for the double-quote character *)
Definition quoted_or_token : Regex :=
  Alt (seq_of [Class is_quote; Plus (not_chars is_quote); Class is_quote])
      (Plus (not_chars is_space)).

(** [/\btype:(\w+)\b/] *)
Definition re_type : Regex :=
  seq_of [WordBoundary; lit "type:"; Group 1 (Plus is_word); WordBoundary].

(** [/\bauthor:([\w.-]+)\b/] *)
Definition re_author : Regex :=
  seq_of [WordBoundary; lit "author:"; Group 1 (Plus name_char); WordBoundary].

(** [/\bafter:([Q'][^Q']+[Q']|\S+)\b/] *)
Definition re_after : Regex :=
  seq_of [WordBoundary; lit "after:"; Group 1 quoted_or_token; WordBoundary].

(** [/\bafter:[Q'][^Q']+[Q']|\bafter:\S+\b/] *)
Definition re_after_clause : Regex :=
  Alt (seq_of [WordBoundary; lit "after:"; Class is_quote;
               Plus (not_chars is_quote); Class is_quote])
      (seq_of [WordBoundary; lit "after:"; Plus (not_chars is_space); WordBoundary]).

(** [/\brepo:([Q'][^Q']+[Q']|\S+)\b/g] *)
Definition re_repo : Regex :=
  seq_of [WordBoundary; lit "repo:"; Group 1 quoted_or_token; WordBoundary].

(** [/\s+/g] *)
Definition re_spaces : Regex := Plus is_space.

(** [/[Q']/g] *)
Definition re_quote : Regex := Class is_quote.

Definition strip_quotes (s : string) : string := replace_all re_quote "" s.

Definition group1 (groups : list (nat * chars)) : string :=
  match group 1 groups with Some text => to_string text | None => "" end.

(** [parseSourcegraphQuery(sourcegraphQuery, originalQuery)] *)
Definition parseSourcegraphQuery (sourcegraphQuery originalQuery : string)
  : QueryAnalysis :=
  let searchType := "file" in
  let searchQuery := sourcegraphQuery in
  let typeMatch := match_group re_type 1 sourcegraphQuery in
  let '(searchType, searchQuery) :=
    match typeMatch with
    | Some t => (t, trim (replace (seq_of [WordBoundary; lit "type:"; Plus is_word; WordBoundary])
                                  "" searchQuery))
    | None => (searchType, searchQuery)
    end in
  let authorMatch := match_group re_author 1 sourcegraphQuery in
  let searchQuery :=
    match authorMatch with
    | Some _ => trim (replace (seq_of [WordBoundary; lit "author:"; Plus name_char; WordBoundary])
                              "" searchQuery)
    | None => searchQuery
    end in
  let afterMatch := match_group re_after 1 sourcegraphQuery in
  let searchQuery :=
    match afterMatch with
    | Some _ => trim (replace re_after_clause "" searchQuery)
    | None => searchQuery
    end in
  let repos := map (fun m => strip_quotes (group1 (snd m)))
                   (match_all re_repo sourcegraphQuery) in
  let searchQuery := trim (replace_all re_spaces " " searchQuery) in
  mkAnalysis searchType searchQuery authorMatch
             (option_map strip_quotes afterMatch) repos originalQuery.

(** [/\b(commit|commits)\b/i] *)
Definition re_commit_words : Regex :=
  seq_of [WordBoundary; Group 1 (alt_of [lit_i "commit"; lit_i "commits"]); WordBoundary].

(** [/\b(diff|diffs|change|changes|pr|prs|pull request|pull requests)\b/i] *)
Definition re_diff_words : Regex :=
  seq_of [WordBoundary;
          Group 1 (alt_of [lit_i "diff"; lit_i "diffs"; lit_i "change"; lit_i "changes";
                           lit_i "pr"; lit_i "prs"; lit_i "pull request";
                           lit_i "pull requests"]);
          WordBoundary].

(** [(?:by|from|author)\s+] and [(?:after|since)\s+] *)
Definition by_prefix : Regex :=
  seq_of [WordBoundary; alt_of [lit_i "by"; lit_i "from"; lit_i "author"]; Plus is_space].
Definition since_prefix : Regex :=
  seq_of [WordBoundary; alt_of [lit_i "after"; lit_i "since"]; Plus is_space].

(** [/\b(?:by|from|author)\s+([\w.-]+)\b/i] *)
Definition re_by : Regex :=
  seq_of [by_prefix; Group 1 (Plus name_char); WordBoundary].

(** [/\b(?:after|since)\s+(\d{4}-\d{2}-\d{2})\b/i] *)
Definition re_since : Regex :=
  seq_of [since_prefix;
          Group 1 (seq_of [Class is_digit; Class is_digit; Class is_digit; Class is_digit;
                           Class (is_char "-"); Class is_digit; Class is_digit;
                           Class (is_char "-"); Class is_digit; Class is_digit]);
          WordBoundary].

(** [/\bin\s+repo(?:sitory)?\s+/i] *)
Definition in_repo_prefix : Regex :=
  seq_of [WordBoundary; lit_i "in"; Plus is_space; lit_i "repo"; Opt (lit_i "sitory");
          Plus is_space].

(** [/\bin\s+repo(?:sitory)?\s+([\w\/.-]+)\b/ig] *)
Definition re_in_repo : Regex :=
  seq_of [in_repo_prefix; Group 1 (Plus path_char); WordBoundary].

(** [/\b(search for|find|look for)\b/i] *)
Definition re_search_words : Regex :=
  seq_of [WordBoundary;
          Group 1 (alt_of [lit_i "search for"; lit_i "find"; lit_i "look for"]);
          WordBoundary].

(** [/\b(commit|commits|diff|diffs|change|changes|pr|prs|pull request|pull requests)\b/i] *)
Definition re_type_words : Regex :=
  seq_of [WordBoundary;
          Group 1 (alt_of [lit_i "commit"; lit_i "commits"; lit_i "diff"; lit_i "diffs";
                           lit_i "change"; lit_i "changes"; lit_i "pr"; lit_i "prs";
                           lit_i "pull request"; lit_i "pull requests"]);
          WordBoundary].

(** [parseWithRules(query)]: the rule-based fallback. *)
Definition parseWithRules (query : string) : QueryAnalysis :=
  let searchType :=
    if test re_commit_words query then "commit"
    else if test re_diff_words query then "diff"
    else "file" in
  let author := match_group re_by 1 query in
  let after := match_group re_since 1 query in
  let repos :=
    map (fun m => replace in_repo_prefix "" (to_string (fst m)))
        (match_all re_in_repo query) in
  let searchQuery := query in
  let searchQuery :=
    match author with
    | Some a => if a =? "" then searchQuery
                else replace (seq_of [by_prefix; spliced_i a; WordBoundary]) "" searchQuery
    | None => searchQuery
    end in
  let searchQuery :=
    match after with
    | Some d => if d =? "" then searchQuery
                else replace (seq_of [since_prefix; spliced_i d; WordBoundary]) "" searchQuery
    | None => searchQuery
    end in
  let searchQuery :=
    fold_left (fun q repo =>
                 replace (seq_of [in_repo_prefix; spliced_i repo; WordBoundary]) "" q)
              repos searchQuery in
  let searchQuery :=
    trim (replace_all re_spaces " "
            (replace re_type_words "" (replace re_search_words "" searchQuery))) in
  mkAnalysis searchType searchQuery author after repos query.

End Formatter.

(* ===================================================================== *)
(** ** The tools ([services/llm.ts], [utils/formatter.ts],
       [services/natural-language.ts], [test-tools.ts], [mcp-server.js]) *)
(* ===================================================================== *)

Module McpServer.
Import Runtime.
Import Formatter.
Local Open Scope eff_scope.

(** A tool response: text blocks and the optional [isError] flag. *)
Record ToolResponse : Type := mkToolResponse {
  content : list string;
  isError : option bool
}.

Definition ok_text (text : string) : ToolResponse := mkToolResponse [text] None.
Definition error_text (text : string) : ToolResponse := mkToolResponse [text] (Some true).

(** A text content block with an optional [isError] flag. *)
Definition structured (r : ToolResponse) : Prop :=
  (exists text, content r = [text]) /\ (isError r = None \/ isError r = Some true).

(** [z.enum(['file', 'commit', 'diff'])] *)
Inductive SearchType : Type := file | commit | diff.

Definition type_name (t : SearchType) : string :=
  match t with
  | file => "file"
  | commit => "commit"
  | diff => "diff"
  end.

Section WithHost.

(** [process.env] at the time the modules were evaluated, which is what the
    module-level constants captured. *)
Variable loaded : Env.

(** How the remote ends answer. *)
Variable answer : Request -> Outcome JsValue.

(** [formatSearchResults(results, { query, type })] of [utils/formatter.ts],
    which may throw on a malformed result. *)
Variable formatSearchResults : JsValue -> JsValue -> string -> Outcome string.

(** [JSON.stringify(v)] and [JSON.stringify(v, null, 2)]. *)
Variable JSON_stringify : JsValue -> string.
Variable JSON_stringify_indented : JsValue -> string.

(** The markdown literal returned by [nl-search-help]. *)
Variable nl_search_help_text : string.

(** *** [services/llm.ts] *)

Definition provider : string :=
  match js_or (LLM_PROVIDER loaded) (Some "openai") with Some p => p | None => "" end.
Definition openAiKey : option string := OPENAI_API_KEY loaded.
Definition anthropicKey : option string := ANTHROPIC_API_KEY loaded.
Definition openAiModel : string :=
  match js_or (OPENAI_MODEL loaded) (Some "gpt-3.5-turbo") with Some p => p | None => "" end.
Definition anthropicModel : string :=
  match js_or (ANTHROPIC_MODEL loaded) (Some "claude-2") with Some p => p | None => "" end.

Definition unwrap (s : option string) : string :=
  match s with Some v => v | None => "undefined" end.

Definition convertQueryWithOpenAI (naturalQuery : string) : Eff World string :=
  if negb (truthy openAiKey) then throw (mkError "OPENAI_API_KEY is not set")
  else
    data <- axios_post answer
              (OpenAiPost ("Bearer " ++ unwrap openAiKey) openAiModel
                 ("Convert the following natural language into a Sourcegraph code search query:"
                  ++ Js.nl ++ Js.nl ++ Js.dq ++ naturalQuery ++ Js.dq)) ;;
    choices <- settle (prop data "choices") ;;
    choice <- settle (first_item choices) ;;
    msg <- settle (prop choice "message") ;;
    assistantMessage <- settle (prop msg "content") ;;
    settle (call_trim "assistantMessage" assistantMessage).

Definition convertQueryWithAnthropic (naturalQuery : string) : Eff World string :=
  if negb (truthy anthropicKey) then throw (mkError "ANTHROPIC_API_KEY is not set")
  else
    data <- axios_post answer
              (AnthropicPost (unwrap anthropicKey) anthropicModel
                 (Js.nl ++ Js.nl
                  ++ "Human: Convert this natural language into a Sourcegraph code search query:"
                  ++ Js.nl ++ Js.nl ++ Js.dq ++ naturalQuery ++ Js.dq
                  ++ Js.nl ++ Js.nl ++ "Assistant:")) ;;
    completion <- settle (prop data "completion") ;;
    settle (call_trim "completion" completion).

Definition convertQueryToSourcegraphSyntax (naturalQuery : string) : Eff World string :=
  configured <- process_env LLM_PROVIDER ;;
  if negb (truthy configured) || (negb (truthy openAiKey) && negb (truthy anthropicKey))
  then ret naturalQuery
  else if (provider =? "") || (provider =? "openai")
  then convertQueryWithOpenAI naturalQuery
  else if provider =? "anthropic"
  then convertQueryWithAnthropic naturalQuery
  else throw (mkError ("Unsupported LLM provider: " ++ provider)).

(** *** [utils/formatter.ts] *)

Definition analyzeQuery (query : string) : Eff World QueryAnalysis :=
  try_catch
    (sourcegraphQuery <- convertQueryToSourcegraphSyntax query ;;
     ret (parseSourcegraphQuery sourcegraphQuery query))
    (fun error => ret (parseWithRules query)).

(** *** [services/sourcegraph.ts] *)

Definition executeSourcegraphSearch (query : string) (graphqlQuery : GraphqlDocument)
  (url token : string) : Eff World JsValue :=
  axios_post answer
    (SourcegraphPost (url ++ "/.api/graphql") ("token " ++ token) graphqlQuery (Some query)).

(** *** [services/natural-language.ts] *)

(** A destructuring default: [name = dflt]. *)
Definition defaulted (v : JsValue) (dflt : JsValue) : JsValue :=
  match v with JUndefined => dflt | _ => v end.

(** [repos.map(...).join(' ')] with the GitHub rule of the natural-language
    path. *)
Definition repo_filter (repo : string) : string :=
  if Js.includes repo "/" then "repo:^github\.com/" ++ repo ++ "$"
  else "repo:" ++ repo.

Definition items_of (v : JsValue) : Outcome (list JsValue) :=
  match v with
  | JArray items => Returned items
  | JUndefined => Thrown (mkError "Cannot read properties of undefined (reading 'length')")
  | JNull => Thrown (mkError "Cannot read properties of null (reading 'length')")
  | _ => Returned []
  end.

Definition is_commit_or_diff (t : JsValue) : bool :=
  match t with
  | JString s => (s =? "commit") || (s =? "diff")
  | _ => false
  end.

(** The query text built from the pieces of an analysis, as both
    [naturalLanguageSearch] and [test-nl-search] do it. *)
Definition assemble (query type author after : JsValue) (repos : list JsValue) : string :=
  let searchQuery := display query in
  let searchQuery := searchQuery ++ " type:" ++ display type in
  let searchQuery :=
    if js_truthy author && is_commit_or_diff type
    then searchQuery ++ " author:" ++ display author else searchQuery in
  let searchQuery :=
    if js_truthy after && is_commit_or_diff type
    then searchQuery ++ " after:" ++ display after else searchQuery in
  let searchQuery :=
    match repos with
    | [] => searchQuery
    | _ :: _ => searchQuery ++ " "
                ++ String.concat " " (map (fun r => repo_filter (display r)) repos)
    end in
  searchQuery ++ " count:20".

(** [naturalLanguageSearch(naturalQuery, sourcegraphConfig)].  The call to
    the [async] function [analyzeQuery] is not awaited, so the destructuring
    reads the properties of the promise. *)
Definition naturalLanguageSearch (naturalQuery : string) (url token : string)
  : Eff World ToolResponse :=
  try_catch
    (floating (analyzeQuery naturalQuery) ;;;
     let analysis := pending_promise in
     let type := defaulted (opt_prop analysis "type") (JString "file") in
     let query := opt_prop analysis "query" in
     let author := opt_prop analysis "author" in
     let after := opt_prop analysis "after" in
     repos <- settle (items_of (defaulted (opt_prop analysis "repos") (JArray []))) ;;
     let searchQuery := assemble query type author after repos in
     graphqlQuery <-
       match type with
       | JString "file" => ret FileSearch
       | JString "commit" => ret CommitSearch
       | JString "diff" => ret DiffSearch
       | _ => throw (mkError ("Unsupported search type: " ++ display type))
       end ;;
     data <- axios_post answer
               (SourcegraphPost (url ++ "/.api/graphql") ("token " ++ token)
                                graphqlQuery (Some searchQuery)) ;;
     errors <- settle (prop data "errors") ;;
     if js_truthy errors
     then ret (error_text ("Sourcegraph API Error: " ++ JSON_stringify errors))
     else
       inner <- settle (prop data "data") ;;
       found <- settle (prop inner "search") ;;
       results <- settle (prop found "results") ;;
       naturalResponse <- settle (formatSearchResults results query (display type)) ;;
       ret (ok_text naturalResponse))
    (fun error =>
       ret (error_text ("Error processing natural language search: "
                        ++ message_or error "Unknown error"))).

(** *** [mcp-server.js] *)

Definition sgUrl : option string := SOURCEGRAPH_URL loaded.
Definition sgToken : option string := SOURCEGRAPH_TOKEN loaded.

(** [sgUrl || process.env.SOURCEGRAPH_URL] and its companion. *)
Definition effectiveUrl : Eff World (option string) :=
  now <- process_env SOURCEGRAPH_URL ;; ret (js_or sgUrl now).
Definition effectiveToken : Eff World (option string) :=
  now <- process_env SOURCEGRAPH_TOKEN ;; ret (js_or sgToken now).

(** The values the two computations above produce in world [w]. *)
Definition url_now (w : World) : option string := js_or sgUrl (SOURCEGRAPH_URL (env w)).
Definition token_now (w : World) : option string :=
  js_or sgToken (SOURCEGRAPH_TOKEN (env w)).

Definition not_configured : ToolResponse :=
  error_text "Error: Sourcegraph URL or token not configured. Please set SOURCEGRAPH_URL and SOURCEGRAPH_TOKEN environment variables.".

(** The [switch (type)] that picks the GraphQL document. *)
Definition document_for (t : SearchType) : GraphqlDocument :=
  match t with
  | commit => CommitSearch
  | diff => DiffSearch
  | file => FileSearch
  end.

(** What every search handler does with the response of the executor. *)
Definition render (response : JsValue) (finalQuery : string) (t : string)
  : Eff World ToolResponse :=
  errors <- settle (prop response "errors") ;;
  if js_truthy errors
  then ret (error_text ("Sourcegraph API Error: " ++ JSON_stringify errors))
  else
    data <- settle (prop response "data") ;;
    found <- settle (prop data "search") ;;
    results <- settle (prop found "results") ;;
    formattedResults <- settle (formatSearchResults results (JString finalQuery) t) ;;
    ret (ok_text formattedResults).

Definition echo (msg : string) : Eff World ToolResponse :=
  ret (ok_text ("Hello " ++ msg)).

(** The two assignments to [finalQuery] in [search-code]. *)
Definition search_code_query (query : string) (t : SearchType) : string :=
  let finalQuery :=
    if Js.includes query "type:" then query else query ++ " type:" ++ type_name t in
  if Js.includes finalQuery "count:" then finalQuery else finalQuery ++ " count:20".

Definition search_code (query : string) (t : SearchType) : Eff World ToolResponse :=
  url <- effectiveUrl ;;
  token <- effectiveToken ;;
  if negb (truthy url) || negb (truthy token) then ret not_configured
  else
    try_catch
      (let finalQuery := search_code_query query t in
       let graphqlQuery := document_for t in
       response <- executeSourcegraphSearch finalQuery graphqlQuery
                     (unwrap url) (unwrap token) ;;
       render response finalQuery (type_name t))
      (fun error =>
         ret (error_text ("Error searching Sourcegraph: "
                          ++ message_or error "Unknown error"))).

Definition clause (label : string) (value : option string) : string :=
  if truthy value then " " ++ label ++ unwrap value else "".

Definition search_commits_query (author msg after : option string) : string :=
  "type:commit" ++ clause "author:" author ++ clause "message:" msg
  ++ clause "after:" after ++ " count:20".

Definition search_commits (author msg after : option string) : Eff World ToolResponse :=
  url <- effectiveUrl ;;
  token <- effectiveToken ;;
  if negb (truthy url) || negb (truthy token) then ret not_configured
  else
    try_catch
      (let finalQuery := search_commits_query author msg after in
       response <- executeSourcegraphSearch finalQuery CommitSearch
                     (unwrap url) (unwrap token) ;;
       render response finalQuery "commit")
      (fun error =>
         ret (error_text ("Error searching Sourcegraph commits: "
                          ++ message_or error "Unknown error"))).

Definition search_diffs_query (query author after : option string) : string :=
  "type:diff" ++ clause "" query ++ clause "author:" author
  ++ clause "after:" after ++ " count:20".

Definition search_diffs (query author after : option string) : Eff World ToolResponse :=
  url <- effectiveUrl ;;
  token <- effectiveToken ;;
  if negb (truthy url) || negb (truthy token) then ret not_configured
  else
    try_catch
      (let finalQuery := search_diffs_query query author after in
       response <- executeSourcegraphSearch finalQuery DiffSearch
                     (unwrap url) (unwrap token) ;;
       render response finalQuery "diff")
      (fun error =>
         ret (error_text ("Error searching Sourcegraph diffs: "
                          ++ message_or error "Unknown error"))).

(** [repos.split(',')] *)
Fixpoint split_commas (acc : Js.chars) (l : Js.chars) : list string :=
  match l with
  | [] => [Js.to_string (rev acc)]
  | x :: l' =>
      if Js.is_char "," x then Js.to_string (rev acc) :: split_commas [] l'
      else split_commas (x :: acc) l'
  end.

Definition search_github_repos_query (query repos : string) (t : SearchType) : string :=
  let repoList := map Js.trim (split_commas [] (Js.of_string repos)) in
  let repoFilters :=
    String.concat " " (map (fun repo => "repo:^github\.com/" ++ repo ++ "$") repoList) in
  query ++ " " ++ repoFilters ++ " type:" ++ type_name t ++ " count:20".

Definition search_github_repos (query repos : string) (t : SearchType)
  : Eff World ToolResponse :=
  url <- effectiveUrl ;;
  token <- effectiveToken ;;
  if negb (truthy url) || negb (truthy token) then ret not_configured
  else
    try_catch
      (let finalQuery := search_github_repos_query query repos t in
       let graphqlQuery := document_for t in
       response <- executeSourcegraphSearch finalQuery graphqlQuery
                     (unwrap url) (unwrap token) ;;
       render response finalQuery (type_name t))
      (fun error =>
         ret (error_text ("Error searching GitHub repositories: "
                          ++ message_or error "Unknown error"))).

Definition natural_search (query : string) (max_results : option nat)
  : Eff World ToolResponse :=
  url <- effectiveUrl ;;
  token <- effectiveToken ;;
  if negb (truthy url) || negb (truthy token) then ret not_configured
  else naturalLanguageSearch query (unwrap url) (unwrap token).

Definition strings (l : list string) : JsValue := JArray (map JString l).

Definition debug : Eff World ToolResponse :=
  let info :=
    JObject
      [("tools", strings ["echo"; "search-code"; "search-commits"; "search-diffs";
                          "search-github-repos"; "natural-search"; "test-nl-search";
                          "test-connection"; "nl-search-help"; "debug";
                          "deep-code-researcher"]);
       ("resources", strings ["hello://sourcegraph"; "greeting://{name}"]);
       ("prompts", strings ["sourcegraph-assistant"]);
       ("methods", strings ["tools/invoke"; "mcp/capabilities"; "debug/info"])] in
  ret (ok_text (JSON_stringify_indented info)).

Definition deep_code_researcher (query : string) : Eff World ToolResponse :=
  ret (ok_text ("Research query '" ++ query ++ "' processed. Implementation pending.")).

(** *** [test-tools.ts] *)

(** [test-nl-search]: here too [analyzeQuery] is called without [await]. *)
Definition test_nl_search (query : string) : Eff World ToolResponse :=
  try_catch
    (floating (analyzeQuery query) ;;;
     let queryAnalysis := pending_promise in
     let q := opt_prop queryAnalysis "query" in
     let t := opt_prop queryAnalysis "type" in
     let author := opt_prop queryAnalysis "author" in
     let after := opt_prop queryAnalysis "after" in
     repos <- settle (items_of (opt_prop queryAnalysis "repos")) ;;
     let searchQuery := assemble q t author after repos in
     ret (ok_text
            ("# Natural Language Search Test Results" ++ Js.nl ++ Js.nl
             ++ "## Query Analysis" ++ Js.nl
             ++ "- Original query: " ++ Js.dq ++ query ++ Js.dq ++ Js.nl
             ++ "- Detected search type: " ++ display t ++ Js.nl
             ++ "- Extracted search terms: " ++ Js.dq ++ display q ++ Js.dq ++ Js.nl
             ++ (if js_truthy author then "- Author filter: " ++ display author else "")
             ++ Js.nl
             ++ (if js_truthy after then "- Date filter: after:" ++ display after else "")
             ++ Js.nl
             ++ match repos with
                | [] => ""
                | _ :: _ => "- Repository filters: " ++ String.concat ", " (map display repos)
                end
             ++ Js.nl ++ Js.nl
             ++ "## Sourcegraph Query" ++ Js.nl
             ++ "```" ++ Js.nl ++ searchQuery ++ Js.nl ++ "```" ++ Js.nl ++ Js.nl
             ++ "This is a test tool that shows how natural language is processed without executing the actual search."
             ++ Js.nl
             ++ "To perform the real search, use the 'natural-search' tool instead."
             ++ Js.nl)))
    (fun error =>
       ret (error_text ("Error processing natural language test: "
                        ++ message_or error "Unknown error"))).

Definition test_connection : Eff World ToolResponse :=
  try_catch
    (url <- process_env SOURCEGRAPH_URL ;;
     token <- process_env SOURCEGRAPH_TOKEN ;;
     if negb (truthy url) || negb (truthy token) then ret not_configured
     else
       data <- axios_post answer
                 (SourcegraphPost (unwrap url ++ "/.api/graphql")
                                  ("token " ++ unwrap token) CurrentUser None) ;;
       errors <- settle (prop data "errors") ;;
       if js_truthy errors
       then ret (error_text ("Sourcegraph API Error: " ++ JSON_stringify errors))
       else
         inner <- settle (prop data "data") ;;
         let name := opt_prop (opt_prop inner "currentUser") "username" in
         let username := if js_truthy name then display name else "Anonymous user" in
         ret (ok_text ("✅ Successfully connected to Sourcegraph API at " ++ unwrap url
                       ++ Js.nl ++ "Authenticated as: " ++ username ++ Js.nl ++ Js.nl
                       ++ "Sourcegraph connection is working properly.")))
    (fun error =>
       ret (error_text ("❌ Error connecting to Sourcegraph API: "
                        ++ message_or error "Unknown error"))).

Definition nl_search_help : Eff World ToolResponse :=
  ret (ok_text nl_search_help_text).

(** *** The registry of tools *)

(** A validated call of one of the tools registered by [createServer],
    [addTestTools] included. *)
Inductive ToolCall : Type :=
| Echo (msg : string)
| SearchCode (query : string) (t : SearchType)
| SearchCommits (author msg after : option string)
| SearchDiffs (query author after : option string)
| SearchGithubRepos (query repos : string) (t : SearchType)
| NaturalSearch (query : string) (max_results : option nat)
| Debug
| TestNlSearch (query : string)
| TestConnection
| NlSearchHelp
| DeepCodeResearcher (query : string).

Definition handler (call : ToolCall) : Eff World ToolResponse :=
  match call with
  | Echo msg => echo msg
  | SearchCode query t => search_code query t
  | SearchCommits author msg after => search_commits author msg after
  | SearchDiffs query author after => search_diffs query author after
  | SearchGithubRepos query repos t => search_github_repos query repos t
  | NaturalSearch query max_results => natural_search query max_results
  | Debug => debug
  | TestNlSearch query => test_nl_search query
  | TestConnection => test_connection
  | NlSearchHelp => nl_search_help
  | DeepCodeResearcher query => deep_code_researcher query
  end.

(** The five tools that query the search platform on behalf of the user. *)
Definition is_search_tool (call : ToolCall) : bool :=
  match call with
  | SearchCode _ _ | SearchCommits _ _ _ | SearchDiffs _ _ _
  | SearchGithubRepos _ _ _ | NaturalSearch _ _ => true
  | _ => false
  end.

End WithHost.

End McpServer.

(* ===================================================================== *)
(** ** The SSE session registry and message router ([http-server.ts]) *)
(* ===================================================================== *)

Module HttpServer.
Local Open Scope eff_scope.

(** A transport handle.  [t_obj] is the identity of the JavaScript object
    created by [new SSEServerTransport(endpoint, res)]: two handles are the
    same object exactly when their [t_obj] agree. *)
Record SSEServerTransport : Type := mkTransport {
  t_obj : nat;
  t_endpoint : string
}.

(** The state owned by [main]: the [connections] map, and the number of
    transport objects created so far (the next object identity). *)
Record Server : Type := mkServer {
  connections : JsMap.t SSEServerTransport;
  allocated : nat
}.

(** What the handler itself wrote on [res]. *)
Inductive Body : Type :=
| EndText (text : string)          (* res.status(c).end(text) *)
| JsonError (error : string).      (* res.status(c).json({ error }) *)

Record Response : Type := mkResponse {
  headersSent : bool;
  sent : option (nat * Body)
}.

(** The store a request handler runs in: the server, the response object of
    this request, and the payloads handed to transports during the request. *)
Record Ctx : Type := mkCtx {
  srv : Server;
  res : Response;
  delivered : list (SSEServerTransport * string)
}.

(** What a call into the protocol SDK did before it returned or threw:
    whether it committed the response headers, and the error it threw. *)
Record Attempt : Type := mkAttempt {
  wrote_headers : bool;
  failure : option JsError
}.

(** [GET /sse].  [sse_random] and [sse_now] are the base-36 renderings of
    [Math.random()] and [Date.now()] used when no id is supplied. *)
Record SseRequest : Type := mkSseRequest {
  sse_query_sessionId : option string;
  sse_random : string;
  sse_now : string;
  sse_construct : option JsError;      (* does the constructor throw? *)
  sse_connect : Attempt                (* server.connect(transport) *)
}.

(** [POST /messages]. *)
Record PostRequest : Type := mkPostRequest {
  post_query_sessionId : option string;
  post_body : string;
  post_handle : Attempt                (* transport.handlePostMessage(...) *)
}.

Definition with_connections (f : JsMap.t SSEServerTransport -> JsMap.t SSEServerTransport)
  (c : Ctx) : Ctx :=
  mkCtx (mkServer (f (connections (srv c))) (allocated (srv c))) (res c) (delivered c).

Definition with_res (f : Response -> Response) (c : Ctx) : Ctx :=
  mkCtx (srv c) (f (res c)) (delivered c).

(** *** Primitive operations used by the handlers *)

Definition connections_has (k : option string) : Eff Ctx bool :=
  fun c =>
    (Returned (match k with
               | Some k => JsMap.has k (connections (srv c))
               | None => false
               end), c).

Definition connections_get (k : string) : Eff Ctx (option SSEServerTransport) :=
  fun c => (Returned (JsMap.get k (connections (srv c))), c).

Definition connections_size : Eff Ctx nat :=
  fun c => (Returned (JsMap.size (connections (srv c))), c).

Definition connections_first : Eff Ctx (option SSEServerTransport) :=
  fun c => (Returned (JsMap.first_value (connections (srv c))), c).

Definition connections_set (k : string) (v : SSEServerTransport) : Eff Ctx unit :=
  modify (with_connections (JsMap.set k v)).

Definition connections_delete (k : string) : Eff Ctx unit :=
  modify (with_connections (JsMap.delete k)).

Definition res_headersSent : Eff Ctx bool :=
  fun c => (Returned (headersSent (res c)), c).

Definition res_status (code : nat) (b : Body) : Eff Ctx unit :=
  modify (with_res (fun _ => mkResponse true (Some (code, b)))).

(** An SDK call touching the response: it may commit the headers, then it
    returns or throws. *)
Definition sdk_call (a : Attempt) : Eff Ctx unit :=
  modify (with_res (fun r => mkResponse (headersSent r || wrote_headers a) (sent r))) ;;;
  match failure a with
  | Some e => throw e
  | None => ret tt
  end.

(** [new SSEServerTransport(endpoint, res)]: a fresh object, unless the
    constructor throws. *)
Definition new_SSEServerTransport (endpoint : string) (fails : option JsError)
  : Eff Ctx SSEServerTransport :=
  match fails with
  | Some e => throw e
  | None =>
      fun c =>
        (Returned (mkTransport (allocated (srv c)) endpoint),
         mkCtx (mkServer (connections (srv c)) (S (allocated (srv c))))
               (res c) (delivered c))
  end.

(** [await server.connect(transport)] *)
Definition server_connect (transport : SSEServerTransport) (a : Attempt)
  : Eff Ctx unit :=
  sdk_call a.

(** [await transport.handlePostMessage(req, res, req.body)]; calling it on
    [undefined] is a [TypeError]. *)
Definition handlePostMessage (transport : option SSEServerTransport)
  (body : string) (a : Attempt) : Eff Ctx unit :=
  match transport with
  | None =>
      throw (mkError "Cannot read properties of undefined (reading 'handlePostMessage')")
  | Some t =>
      modify (fun c => mkCtx (srv c) (res c) (delivered c ++ [(t, body)])%list) ;;;
      sdk_call a
  end.

(** *** The handlers *)

(** [req.query.sessionId || `${random}-${now}`] *)
Definition sessionId_of (req : SseRequest) : string :=
  match js_or (sse_query_sessionId req)
              (Some (sse_random req ++ "-" ++ sse_now req)) with
  | Some s => s
  | None => ""
  end.

(** [app.get("/sse", ...)].  The value returned is the [sessionId] captured
    by the [close] listener that the handler installs on the request as its
    last step, whether or not the [try] block succeeded. *)
Definition openSession (req : SseRequest) : Eff Ctx string :=
  let sessionId := sessionId_of req in
  try_catch
    (transport <- new_SSEServerTransport ("/messages?sessionId=" ++ sessionId)
                                         (sse_construct req) ;;
     connections_set sessionId transport ;;;
     server_connect transport (sse_connect req))
    (fun error =>
       hs <- res_headersSent ;;
       if negb hs
       then res_status 500 (EndText ("Server error: " ++ message_or error "Unknown error"))
       else ret tt) ;;;
  ret sessionId.

(** The [close] listener of a request opened with [sessionId]. *)
Definition closeSession (sessionId : string) : Eff Ctx unit :=
  present <- connections_has (Some sessionId) ;;
  if present then connections_delete sessionId else ret tt.

(** [app.post("/messages", ...)] *)
Definition routeMessage (req : PostRequest) : Eff Ctx unit :=
  try_catch
    (let sessionId := post_query_sessionId req in
     present <- connections_has sessionId ;;
     if negb (truthy sessionId) || negb present then
       n <- connections_size ;;
       if Nat.eqb n 0 then res_status 400 (JsonError "No active connections")
       else
         transport <- connections_first ;;
         handlePostMessage transport (post_body req) (post_handle req)
     else
       transport <- connections_get
                      (match sessionId with Some s => s | None => "" end) ;;
       handlePostMessage transport (post_body req) (post_handle req))
    (fun error =>
       hs <- res_headersSent ;;
       if negb hs
       then res_status 500
              (JsonError ("Internal server error: " ++ message_or error "Unknown error"))
       else ret tt).

(** *** Running the server *)

(** Each request starts with a fresh response object. *)
Definition fresh (s : Server) : Ctx := mkCtx s (mkResponse false None) [].

Definition exec {A} (c : Eff Ctx A) (s : Server) : Ctx := snd (c (fresh s)).

(** The transport a [POST /messages] was forwarded to, with the payload. *)
Definition forwarded (req : PostRequest) (s : Server)
  : list (SSEServerTransport * string) :=
  delivered (exec (routeMessage req) s).

(** The status and body the handler itself answered with, if any. *)
Definition replied {A} (c : Eff Ctx A) (s : Server) : option (nat * Body) :=
  sent (res (exec c s)).

(** What happens to the server, one callback at a time: the handler of a
    [GET /sse] run to its last statement, the [close] listener of a request
    opened with [sessionId], the handler of a [POST /messages].

    [GetSse] is the handler alone.  The [close] event of the request is a
    [ReqClose] of its own: it comes when the client goes away, or, when the
    handler itself ended the response with status 500, as soon as that
    response is complete (see [HttpServerTrace.serve_sse]). *)
Inductive Event : Type :=
| GetSse (req : SseRequest)
| ReqClose (sessionId : string)
| PostMessages (req : PostRequest).

Definition step (s : Server) (e : Event) : Server :=
  match e with
  | GetSse req => srv (exec (openSession req) s)
  | ReqClose sessionId => srv (exec (closeSession sessionId) s)
  | PostMessages req => srv (exec (routeMessage req) s)
  end.

Definition run (s : Server) (evs : list Event) : Server := fold_left step evs s.

(** The state [main] starts from: [new Map()], no transport created yet. *)
Definition initial : Server := mkServer JsMap.empty 0.

(** *** Derived notions used to state the properties *)

(** The transport object that [openSession] creates in state [s]. *)
Definition minted (req : SseRequest) (s : Server) : SSEServerTransport :=
  mkTransport (allocated s) ("/messages?sessionId=" ++ sessionId_of req).

(** The branch taken by [routeMessage]: the transport it picks, if any. *)
Definition target (sessionId : option string) (m : JsMap.t SSEServerTransport)
  : option SSEServerTransport :=
  match sessionId with
  | Some sid =>
      if negb (sid =? "") && JsMap.has sid m then JsMap.get sid m
      else JsMap.first_value m
  | None => JsMap.first_value m
  end.

(** Every registered key is a non-empty string, every registered transport
    was created before, and no transport object is registered twice. *)
Record Inv (s : Server) : Prop := mkInv {
  inv_keys : forall e, In e (connections s) -> fst e <> "";
  inv_old : forall e, In e (connections s) -> t_obj (snd e) < allocated s;
  inv_objs : NoDup (map t_obj (JsMap.values (connections s)))
}.

(** A transport object that is not registered and was created before. *)
Definition gone (t : SSEServerTransport) (s : Server) : Prop :=
  t_obj t < allocated s /\
  forall e, In e (connections s) -> t_obj (snd e) <> t_obj t.

End HttpServer.

(* ===================================================================== *)
(** ** Further notions used to state properties of the session registry *)
(* ===================================================================== *)

Module HttpServerTrace.
Import HttpServer.

(** The [GET /sse] requests of a trace whose transport was constructed. *)
Fixpoint constructed (evs : list Event) : nat :=
  match evs with
  | [] => 0
  | GetSse req :: evs' =>
      (match sse_construct req with None => 1 | Some _ => 0 end) + constructed evs'
  | _ :: evs' => constructed evs'
  end.

(** The endpoint a transport registered under [sessionId] announces. *)
Definition endpoint_of (sessionId : string) : string :=
  "/messages?sessionId=" ++ sessionId.

(** The [/sse] handler ended the response itself, with
    [res.status(500).end(...)]. *)
Definition handler_ended (req : SseRequest) (s : Server) : bool :=
  match replied (openSession req) s with
  | Some _ => true
  | None => false
  end.

(** A [GET /sse] up to the point where the server is idle again.  When the
    handler ended the response, the request is complete and its [close]
    event follows at once, so the listener installed on the handler's last
    line runs before any other request is handled.  Otherwise the stream
    stays open and no [close] event is due yet. *)
Definition serve_sse (s : Server) (req : SseRequest) : Server :=
  let s' := step s (GetSse req) in
  if handler_ended req s then step s' (ReqClose (sessionId_of req)) else s'.

(** The events that can write the registry entry of [sessionId]: a
    [GET /sse] under that id and the [close] of a request opened with it. *)
Definition concerns (sessionId : string) (e : Event) : bool :=
  match e with
  | GetSse req => sessionId_of req =? sessionId
  | ReqClose k => k =? sessionId
  | PostMessages _ => false
  end.

End HttpServerTrace.

(* ===================================================================== *)
(** ** What each tool hands to the search platform *)
(* ===================================================================== *)

Module McpServerRequests.
Import Runtime McpServer.

(** For the four tools that call [executeSourcegraphSearch] themselves: the
    GraphQL document, the query text, and the type label given to the
    formatter. *)
Definition search_arguments (call : ToolCall)
  : option (GraphqlDocument * string * string) :=
  match call with
  | SearchCode query t =>
      Some (document_for t, search_code_query query t, type_name t)
  | SearchCommits author msg after =>
      Some (CommitSearch, search_commits_query author msg after, "commit")
  | SearchDiffs query author after =>
      Some (DiffSearch, search_diffs_query query author after, "diff")
  | SearchGithubRepos query repos t =>
      Some (document_for t, search_github_repos_query query repos t, type_name t)
  | _ => None
  end.

(** The text each of these tools puts before the message of a caught
    error. *)
Definition failure_prefix (call : ToolCall) : string :=
  match call with
  | SearchCode _ _ => "Error searching Sourcegraph: "
  | SearchCommits _ _ _ => "Error searching Sourcegraph commits: "
  | SearchDiffs _ _ _ => "Error searching Sourcegraph diffs: "
  | SearchGithubRepos _ _ _ => "Error searching GitHub repositories: "
  | _ => ""
  end.

(** The tools whose handler touches neither the network nor the
    environment. *)
Definition is_local_tool (call : ToolCall) : bool :=
  match call with
  | Echo _ | Debug | NlSearchHelp | DeepCodeResearcher _ => true
  | _ => false
  end.

(** The request [executeSourcegraphSearch] sends. *)
Definition search_request (url token : string) (doc : GraphqlDocument) (query : string)
  : Request :=
  SourcegraphPost (url ++ "/.api/graphql") ("token " ++ token) doc (Some query).

End McpServerRequests.

(* ===================================================================== *)
(** ** Whitespace, character by character *)
(* ===================================================================== *)

Module JsText.
Import Js.

(** Every maximal run of whitespace replaced by one blank; [in_run] says
    that the previous character was whitespace. *)
Fixpoint squeeze (in_run : bool) (l : chars) : chars :=
  match l with
  | [] => []
  | x :: l' =>
      if is_space x
      then if in_run then squeeze true l' else " "%char :: squeeze true l'
      else x :: squeeze false l'
  end.

(** The first character, if any, is not whitespace. *)
Definition clean_head (l : chars) : Prop :=
  match l with
  | [] => True
  | x :: _ => is_space x = false
  end.

(** Either nothing, or something that starts with whitespace. *)
Definition blank_start (t : string) : Prop :=
  match t with
  | EmptyString => True
  | String c _ => is_space c = true
  end.

End JsText.

(* ===================================================================== *)
(** ** [escapeMarkdown] ([utils/formatter.ts]) *)
(* ===================================================================== *)

Module Markdown.
Import Js.

(** [text.replace(/\*/g, '\\*').replace(/\_/g, '\\_').replace(/\~/g, '\\~')
         .replace(/\`/g, '\\`')] *)
Definition escapeMarkdown (text : string) : string :=
  replace_all (Class (is_char "`")) "\`"
    (replace_all (Class (is_char "~")) "\~"
       (replace_all (Class (is_char "_")) "\_"
          (replace_all (Class (is_char "*")) "\*" text))).

(** The four characters that [escapeMarkdown] guards. *)
Definition is_markdown_special (c : ascii) : bool :=
  is_char "*" c || is_char "_" c || is_char "~" c || is_char "`" c.

(** What becomes of one character. *)
Definition escape_char (c : ascii) : chars :=
  if is_markdown_special c then ["\"%char; c] else [c].

End Markdown.

(* ===================================================================== *)
(** ** The search service ([services/sourcegraph.ts]) *)
(* ===================================================================== *)

Module SourcegraphService.
Import Runtime McpServer.
Local Open Scope eff_scope.

Section WithHost.
Variable answer : Request -> Outcome JsValue.

(** [getSourcegraphConfig()]: reads the environment when it is called. *)
Definition getSourcegraphConfig : Eff World (string * string) :=
  url <- process_env SOURCEGRAPH_URL ;;
  token <- process_env SOURCEGRAPH_TOKEN ;;
  if negb (truthy url) || negb (truthy token)
  then throw (mkError "Sourcegraph URL or token not configured. Please set SOURCEGRAPH_URL and SOURCEGRAPH_TOKEN environment variables.")
  else ret (unwrap url, unwrap token).

(** The document chosen from the text of the query. *)
Definition document_of_query (query : string) : GraphqlDocument :=
  if Js.includes query "type:commit" then CommitSearch
  else if Js.includes query "type:diff" then DiffSearch
  else FileSearch.

(** [searchSourcegraph(query)], the entry point of the Express routes. *)
Definition searchSourcegraph (query : string) : Eff World JsValue :=
  config <- getSourcegraphConfig ;;
  let graphqlQuery := document_of_query query in
  executeSourcegraphSearch answer query graphqlQuery (fst config) (snd config).

End WithHost.
End SourcegraphService.

(* ===================================================================== *)
(** ** The compiled LLM service ([dist/services/llm.js]) *)
(* ===================================================================== *)

Module DistLlm.
Import Runtime Js.
Local Open Scope eff_scope.

(** [s.replace(/^r/, by)]: without the [m] flag, [^] holds at the start of
    the input only. *)
Definition replace_at_start (r : Regex) (by_ : string) (s : string) : string :=
  match match_here r None (of_string s) with
  | Some (_, rest, _) => to_string (of_string by_ ++ rest)%list
  | None => s
  end.

(** [/^(show me|find|search for|look for|get|retrieve)\s+/i], after the
    anchor. *)
Definition re_lead : Regex :=
  seq_of [Group 1 (alt_of [lit_i "show me"; lit_i "find"; lit_i "search for";
                           lit_i "look for"; lit_i "get"; lit_i "retrieve"]);
          Plus is_space].

(** [/\b(all|the|those|any)\s+/g] *)
Definition re_filler : Regex :=
  seq_of [WordBoundary; Group 1 (alt_of [lit "all"; lit "the"; lit "those"; lit "any"]);
          Plus is_space].

(** [/\s+(files?|code|results?)\s+/g] *)
Definition re_noise : Regex :=
  seq_of [Plus is_space;
          Group 1 (alt_of [Seq (lit "file") (Opt (Class (is_char "s")));
                           lit "code";
                           Seq (lit "result") (Opt (Class (is_char "s")))]);
          Plus is_space].

(** [/\s+in\s+(the\s+)?repos?(itory)?\s+/g] *)
Definition re_in_repo : Regex :=
  seq_of [Plus is_space; lit "in"; Plus is_space;
          Opt (Group 1 (Seq (lit "the") (Plus is_space)));
          lit "repo"; Opt (Class (is_char "s")); Opt (Group 2 (lit "itory"));
          Plus is_space].

(** [fallbackQueryConversion(naturalQuery)] *)
Definition fallbackQueryConversion (naturalQuery : string) : string :=
  let cleanedQuery :=
    replace_all re_in_repo " repo:"
      (replace_all re_noise " "
         (replace_all re_filler ""
            (replace_at_start re_lead "" naturalQuery))) in
  if negb (includes cleanedQuery "type:")
  then trim cleanedQuery ++ " type:file"
  else trim cleanedQuery.

(** [s.toLowerCase()], on the code units below 128. *)
Definition toLowerCase (s : string) : string := to_string (map to_lower (of_string s)).

(** [v?.trim()], where [callee] is the text of the expression [v] in the
    source: [undefined] on a nullish value, a [TypeError] naming the callee
    on a value that has no [trim]. *)
Definition opt_call_trim (callee : string) (v : JsValue) : Outcome (option string) :=
  match v with
  | JUndefined | JNull => Returned None
  | JString s => Returned (Some (trim s))
  | _ => Thrown (mkError (callee ++ "?.trim is not a function"))
  end.

Section WithHost.

(** [process.env] when the module was evaluated. *)
Variable loaded : Env.
Variable answer : Request -> Outcome JsValue.

(** The two prompt templates, [createOpenAIPrompt] and
    [createAnthropicPrompt]. *)
Variable createOpenAIPrompt createAnthropicPrompt : string -> string.

Definition LLM_PROVIDER_ : string :=
  match js_or (LLM_PROVIDER loaded) (Some "openai") with Some p => p | None => "" end.
Definition OPENAI_API_KEY_ : option string := OPENAI_API_KEY loaded.
Definition OPENAI_MODEL_ : string :=
  match js_or (OPENAI_MODEL loaded) (Some "gpt-4o") with Some p => p | None => "" end.
Definition ANTHROPIC_API_KEY_ : option string := ANTHROPIC_API_KEY loaded.
Definition ANTHROPIC_MODEL_ : string :=
  match js_or (ANTHROPIC_MODEL loaded) (Some "claude-2") with Some p => p | None => "" end.

Definition key_text (k : option string) : string :=
  match k with Some v => v | None => "undefined" end.

(** The completion, trimmed, or an error when it is missing or empty. *)
Definition require_text (translatedQuery : option string) (who : string)
  : Eff World string :=
  match translatedQuery with
  | Some s => if s =? "" then throw (mkError ("Empty or invalid response from " ++ who))
              else ret s
  | None => throw (mkError ("Empty or invalid response from " ++ who))
  end.

Definition convertWithOpenAI (naturalQuery : string) : Eff World string :=
  if negb (truthy OPENAI_API_KEY_) then throw (mkError "OpenAI API key not configured")
  else
    let prompt := createOpenAIPrompt naturalQuery in
    data <- axios_post answer
              (OpenAiPost ("Bearer " ++ key_text OPENAI_API_KEY_) OPENAI_MODEL_ prompt) ;;
    choices <- settle (prop data "choices") ;;
    choice <- settle (first_item choices) ;;
    translatedQuery <- settle (opt_call_trim "response.data.choices[0]?.message?.content"
                        (opt_prop (opt_prop choice "message") "content")) ;;
    require_text translatedQuery "OpenAI".

Definition convertWithAnthropic (naturalQuery : string) : Eff World string :=
  if negb (truthy ANTHROPIC_API_KEY_) then throw (mkError "Anthropic API key not configured")
  else
    let prompt := createAnthropicPrompt naturalQuery in
    data <- axios_post answer
              (AnthropicPost (key_text ANTHROPIC_API_KEY_) ANTHROPIC_MODEL_ prompt) ;;
    blocks <- settle (prop data "content") ;;
    block <- settle (first_item blocks) ;;
    translatedQuery <- settle (opt_call_trim "response.data.content[0]?.text" (opt_prop block "text")) ;;
    require_text translatedQuery "Anthropic".

(** [convertQueryToSourcegraphSyntax(naturalQuery)] of the compiled
    service: every failure ends in the local fallback. *)
Definition convertQueryToSourcegraphSyntax (naturalQuery : string) : Eff World string :=
  try_catch
    (let p := toLowerCase LLM_PROVIDER_ in
     if p =? "openai" then convertWithOpenAI naturalQuery
     else if p =? "anthropic" then convertWithAnthropic naturalQuery
     else throw (mkError ("Unsupported LLM provider: " ++ LLM_PROVIDER_)))
    (fun error => ret (fallbackQueryConversion naturalQuery)).

End WithHost.
End DistLlm.

(* ===================================================================== *)
(** ** The query helper of the Express routes ([routes/search.ts]) *)
(* ===================================================================== *)

Module SearchRoutes.
Import Runtime Js.
Local Open Scope eff_scope.

(** [/\btype:\w+/] *)
Definition re_has_type : Regex :=
  seq_of [WordBoundary; lit "type:"; Plus is_word].

(** [/\bcount:/] *)
Definition re_has_count : Regex :=
  seq_of [WordBoundary; lit "count:"].

(** The part of [buildFinalQuery] after the query text is known. *)
Definition complete (sgQuery defaultType : string) : string :=
  let sgQuery :=
    if negb (test re_has_type sgQuery) then sgQuery ++ " type:" ++ defaultType
    else sgQuery in
  let sgQuery :=
    if negb (test re_has_count sgQuery) then sgQuery ++ " count:all" else sgQuery in
  trim sgQuery.

(** What the two patterns look for.  A key text of [\btype:\w+] is [type:]
    and one word character (the pattern takes the longest run of them, and
    one is enough for it to match); the key text of [\bcount:] is [count:]. *)
Definition type_key (key : chars) : Prop :=
  exists c, key = (of_string "type:" ++ [c])%list /\ is_word c = true.

Definition count_key (key : chars) : Prop := key = of_string "count:".

(** A key text starts here, and this place is not the inside of a word. *)
Definition key_here (K : chars -> Prop) (b : option ascii) (l : chars) : Prop :=
  word_at b = false /\ exists key rest, l = (key ++ rest)%list /\ K key.

(** A key text starts somewhere in [l]. *)
Definition key_found (K : chars -> Prop) (l : chars) : Prop :=
  exists l1 l2, l = (l1 ++ l2)%list /\ key_here K (last_of l1 None) l2.

(** A text that is not empty and neither starts nor ends with whitespace. *)
Definition solid (key : chars) : Prop :=
  key <> [] /\ JsText.clean_head key /\ JsText.clean_head (rev key).

(** A text that starts with a word character, as the values [file],
    [commit] and [diff] of [defaultType] do. *)
Definition word_start (t : string) : Prop :=
  match t with
  | String c _ => is_word c = true
  | EmptyString => False
  end.

Section WithHost.
Variable loaded : Env.
Variable answer : Request -> Outcome JsValue.

(** [buildFinalQuery(naturalOrDirectQuery, isDirect, defaultType)], with the
    translator of [services/llm.ts]. *)
Definition buildFinalQuery (naturalOrDirectQuery : string) (isDirect : bool)
  (defaultType : string) : Eff World string :=
  sgQuery <-
    (if isDirect then ret (trim naturalOrDirectQuery)
     else McpServer.convertQueryToSourcegraphSyntax loaded answer naturalOrDirectQuery) ;;
  ret (complete sgQuery defaultType).

End WithHost.
End SearchRoutes.

(* ===================================================================== *)
(** * Properties *)
(* ===================================================================== *)

(** ** Facts about [JsMap] *)

Module JsMapFacts.
Import JsMap.
Section WithValues.
Context {V : Type}.
Implicit Types (m : JsMap.t V) (k : string) (v : V).

Lemma has_get k m : has k m = true <-> exists v, get k m = Some v.
Proof.
  unfold has. destruct (get k m) as [v|]; split; intros H.
  - now exists v.
  - reflexivity.
  - discriminate.
  - destruct H as [v H]. discriminate.
Qed.

Lemma has_in_keys k m : has k m = true <-> In k (keys m).
Proof.
  unfold has. induction m as [|[k' v'] m IH]; simpl.
  - split; [discriminate | tauto].
  - destruct (String.eqb_spec k' k) as [->|Hne].
    + split; auto.
    + rewrite IH. split; [auto | intros [H|H]; [contradiction | exact H]].
Qed.

Lemma get_in k v m : get k m = Some v -> In (k, v) m.
Proof.
  induction m as [|[k' v'] m IH]; simpl; [discriminate|].
  destruct (String.eqb_spec k' k) as [->|Hne].
  - intros [= ->]. now left.
  - intros H. right. auto.
Qed.

Lemma get_set_same k v m : get k (set k v m) = Some v.
Proof.
  induction m as [|[k' v'] m IH]; simpl.
  - now rewrite String.eqb_refl.
  - destruct (String.eqb_spec k' k) as [->|Hne]; simpl.
    + now rewrite String.eqb_refl.
    + apply String.eqb_neq in Hne. now rewrite Hne.
Qed.

Lemma get_set_other k k' v m : k' <> k -> get k' (set k v m) = get k' m.
Proof.
  intros Hne. induction m as [|[k0 v0] m IH]; simpl.
  - destruct (String.eqb_spec k k'); [congruence | reflexivity].
  - destruct (String.eqb_spec k0 k) as [->|Hk]; simpl.
    + destruct (String.eqb_spec k k'); [congruence | reflexivity].
    + destruct (String.eqb_spec k0 k'); [reflexivity | exact IH].
Qed.

Lemma get_delete_same k m : get k (delete k m) = None.
Proof.
  induction m as [|[k' v'] m IH]; simpl; [reflexivity|].
  destruct (String.eqb_spec k' k) as [->|Hne]; simpl; [exact IH|].
  apply String.eqb_neq in Hne. now rewrite Hne.
Qed.

Lemma get_delete_other k k' m : k' <> k -> get k' (delete k m) = get k' m.
Proof.
  intros Hne. induction m as [|[k0 v0] m IH]; simpl; [reflexivity|].
  destruct (String.eqb_spec k0 k) as [->|Hk]; simpl.
  - destruct (String.eqb_spec k k'); [congruence | exact IH].
  - destruct (String.eqb_spec k0 k'); [reflexivity | exact IH].
Qed.

Lemma delete_absent k m : has k m = false -> delete k m = m.
Proof.
  unfold has. induction m as [|[k' v'] m IH]; simpl; [reflexivity|].
  destruct (String.eqb_spec k' k) as [->|Hne]; [discriminate|].
  intros H. now rewrite IH.
Qed.

Lemma has_delete_same k m : has k (delete k m) = false.
Proof. unfold has. now rewrite get_delete_same. Qed.

Lemma delete_idem k m : delete k (delete k m) = delete k m.
Proof. apply delete_absent, has_delete_same. Qed.

Lemma in_delete k e m : In e (delete k m) -> In e m /\ fst e <> k.
Proof.
  induction m as [|[k' v'] m IH]; simpl; [tauto|].
  destruct (String.eqb_spec k' k) as [->|Hne]; simpl.
  - intros H. destruct (IH H). auto.
  - intros [<-|H]; [auto|]. destruct (IH H). auto.
Qed.

Lemma in_delete_intro k e m : In e m -> fst e <> k -> In e (delete k m).
Proof.
  intros Hin Hne. induction m as [|[k' v'] m IH]; simpl in *; [tauto|].
  destruct (String.eqb_spec k' k) as [->|Hk].
  - destruct Hin as [<-|Hin]; [simpl in Hne; congruence | auto].
  - destruct Hin as [<-|Hin]; [now left | right; auto].
Qed.

Lemma in_set k v e m : In e (set k v m) -> e = (k, v) \/ In e m.
Proof.
  induction m as [|[k' v'] m IH]; simpl.
  - intros [<-|[]]. now left.
  - destruct (String.eqb_spec k' k) as [->|Hne]; simpl.
    + intros [<-|H]; auto.
    + intros [<-|H]; auto. destruct (IH H); auto.
Qed.

Lemma first_value_in v m : first_value m = Some v -> In v (values m).
Proof. destruct m as [|[k' v'] m]; simpl; [discriminate|]. intros [= ->]. now left. Qed.

Lemma size_zero m : size m = 0 <-> m = [].
Proof. destruct m; simpl; split; intros H; try reflexivity; discriminate. Qed.

End WithValues.
End JsMapFacts.

(* ===================================================================== *)
(** ** The session registry and the router *)
(* ===================================================================== *)

Module HttpServerFacts.
Import HttpServer HttpServerTrace.
Import JsMapFacts.

(** *** Closed forms of the three handlers *)

Lemma srv_openSession req s :
  srv (exec (openSession req) s) =
  match sse_construct req with
  | Some _ => s
  | None => mkServer (JsMap.set (sessionId_of req) (minted req s) (connections s))
                     (S (allocated s))
  end.
Proof.
  destruct s as [m n], req as [q r t [e|] [w [f|]]]; cbn;
    try destruct w; reflexivity.
Qed.

Lemma srv_closeSession sessionId s :
  srv (exec (closeSession sessionId) s) =
  mkServer (JsMap.delete sessionId (connections s)) (allocated s).
Proof.
  destruct s as [m n]. unfold exec, closeSession, bind, connections_has; cbn.
  destruct (JsMap.has sessionId m) eqn:H; cbn; [reflexivity|].
  now rewrite delete_absent.
Qed.

Lemma routeMessage_exec req s :
  exec (routeMessage req) s =
  match target (post_query_sessionId req) (connections s) with
  | Some t =>
      mkCtx s
        (match failure (post_handle req) with
         | Some e =>
             if wrote_headers (post_handle req)
             then mkResponse true None
             else mkResponse true
                    (Some (500, JsonError ("Internal server error: "
                                           ++ message_or e "Unknown error")))
         | None => mkResponse (wrote_headers (post_handle req)) None
         end)
        [(t, post_body req)]
  | None => mkCtx s (mkResponse true (Some (400, JsonError "No active connections"))) []
  end.
Proof.
  destruct s as [m n], req as [q b [w f]]. unfold target; cbn.
  destruct q as [sid|]; cbn.
  - unfold exec, routeMessage, try_catch, bind, connections_has; cbn.
    destruct (sid =? "") eqn:Hsid; cbn.
    + destruct m as [|[k t] m]; cbn; [reflexivity|].
      destruct f, w; reflexivity.
    + unfold JsMap.has. destruct (JsMap.get sid m) as [t|] eqn:Hget; cbn.
      * unfold connections_get; cbn. rewrite Hget. destruct f, w; reflexivity.
      * destruct m as [|[k t] m]; cbn; [reflexivity|].
        destruct f, w; reflexivity.
  - unfold exec, routeMessage, try_catch, bind, connections_has; cbn.
    destruct m as [|[k t] m]; cbn; [reflexivity|].
    destruct f, w; reflexivity.
Qed.

(** None of the three handlers lets an exception escape. *)
Lemma handlers_settle s :
  (forall req, exists id, fst (openSession req (fresh s)) = Returned id) /\
  (forall id, fst (closeSession id (fresh s)) = Returned tt) /\
  (forall req, fst (routeMessage req (fresh s)) = Returned tt).
Proof.
  destruct s as [m n]. repeat split.
  - intros [q r t [e|] [w [f|]]]; cbn; try destruct w; eexists; reflexivity.
  - intros id. unfold closeSession, bind, connections_has; cbn.
    now destruct (JsMap.has id m).
  - intros [q b [w f]]. unfold routeMessage, try_catch, bind, connections_has,
      connections_size, connections_first, connections_get; cbn.
    destruct (negb (truthy q) || negb _); cbn.
    + destruct m as [|[k t] m]; cbn; [reflexivity|]. destruct f, w; reflexivity.
    + destruct (JsMap.get _ m); cbn; [|reflexivity]. destruct f, w; reflexivity.
Qed.

Lemma srv_routeMessage req s : srv (exec (routeMessage req) s) = s.
Proof.
  rewrite routeMessage_exec.
  now destruct (target (post_query_sessionId req) (connections s)).
Qed.

Lemma forwarded_target req s :
  forwarded req s =
  match target (post_query_sessionId req) (connections s) with
  | Some t => [(t, post_body req)]
  | None => []
  end.
Proof.
  unfold forwarded. rewrite routeMessage_exec.
  now destruct (target (post_query_sessionId req) (connections s)).
Qed.

Lemma target_in sid m t : target sid m = Some t -> In t (JsMap.values m).
Proof.
  unfold target. intros H.
  assert (Hfirst : JsMap.first_value m = Some t -> In t (JsMap.values m))
    by apply first_value_in.
  destruct sid as [sid|]; [|auto].
  destruct (negb (sid =? "") && JsMap.has sid m); [|auto].
  apply get_in in H. unfold JsMap.values.
  change t with (snd (sid, t)). now apply in_map.
Qed.

(** *** Invariants of the reachable states *)

Lemma append_dash_nonempty a b : a ++ "-" ++ b <> "".
Proof. destruct a; discriminate. Qed.

Lemma sessionId_of_nonempty req : sessionId_of req <> "".
Proof.
  unfold sessionId_of, js_or. destruct (sse_query_sessionId req) as [q|]; cbn.
  - destruct (String.eqb_spec q ""); cbn; [apply append_dash_nonempty | assumption].
  - apply append_dash_nonempty.
Qed.

Lemma objs_set_fresh k (t : SSEServerTransport) m :
  (forall e, In e m -> t_obj (snd e) <> t_obj t) ->
  NoDup (map t_obj (JsMap.values m)) ->
  NoDup (map t_obj (JsMap.values (JsMap.set k t m))).
Proof.
  induction m as [|[k' t'] m IH]; cbn; intros Hfresh Hnd.
  - constructor; [tauto | constructor].
  - inversion Hnd as [|? ? Hnotin Hnd']; subst.
    destruct (k' =? k); cbn.
    + constructor; [|assumption].
      intros Hin. apply in_map_iff in Hin as [t0 [Ht0 Hin]].
      apply in_map_iff in Hin as [e [He Hin]]. subst t0.
      apply (Hfresh e); auto.
    + constructor.
      * intros Hin. apply in_map_iff in Hin as [t0 [Ht0 Hin]].
        apply in_map_iff in Hin as [e [He Hin]]. subst t0.
        apply in_set in Hin as [->|Hin].
        -- cbn in Ht0. apply (Hfresh (k', t')); cbn; auto.
        -- apply Hnotin. apply in_map_iff. exists (snd e). split; [assumption|].
           now apply in_map.
      * apply IH; auto.
Qed.

Lemma objs_delete k (m : JsMap.t SSEServerTransport) :
  NoDup (map t_obj (JsMap.values m)) ->
  NoDup (map t_obj (JsMap.values (JsMap.delete k m))).
Proof.
  induction m as [|[k' t'] m IH]; cbn; intros Hnd; [constructor|].
  inversion Hnd as [|? ? Hnotin Hnd']; subst.
  destruct (k' =? k); cbn; [auto|].
  constructor; [|auto].
  intros Hin. apply Hnotin.
  apply in_map_iff in Hin as [t0 [Ht0 Hin]].
  apply in_map_iff in Hin as [e [He Hin]]. subst t0.
  apply in_delete in Hin as [Hin _].
  apply in_map_iff. exists (snd e). split; [assumption|]. now apply in_map.
Qed.

Lemma Inv_initial : Inv initial.
Proof. split; cbn; try tauto. constructor. Qed.

Lemma Inv_step s e : Inv s -> Inv (step s e).
Proof.
  intros [Hk Ho Hn]. destruct e as [req|sid|req]; cbn [step].
  - rewrite srv_openSession. destruct (sse_construct req); [now split|].
    split; cbn.
    + intros e Hin. apply in_set in Hin as [->|Hin]; [|auto].
      apply sessionId_of_nonempty.
    + intros e Hin. apply in_set in Hin as [->|Hin]; cbn; [lia|].
      specialize (Ho e Hin). lia.
    + apply objs_set_fresh; [|assumption].
      intros e Hin. specialize (Ho e Hin). cbn. lia.
  - rewrite srv_closeSession. split; cbn.
    + intros e Hin. apply in_delete in Hin as [Hin _]. auto.
    + intros e Hin. apply in_delete in Hin as [Hin _]. auto.
    + now apply objs_delete.
  - now rewrite srv_routeMessage.
Qed.

Lemma Inv_run evs : forall s, Inv s -> Inv (run s evs).
Proof.
  induction evs as [|e evs IH]; cbn; intros s H; [assumption|].
  apply IH, Inv_step, H.
Qed.

Lemma Inv_reachable evs : Inv (run initial evs).
Proof. apply Inv_run, Inv_initial. Qed.

Lemma run_app s evs1 evs2 : run s (evs1 ++ evs2)%list = run (run s evs1) evs2.
Proof. apply fold_left_app. Qed.

Lemma target_first_none sid k t rest :
  target None ((k, t) :: rest) = Some t /\
  (JsMap.has sid ((k, t) :: rest) = false ->
   target (Some sid) ((k, t) :: rest) = Some t).
Proof.
  split; [reflexivity|]. intros H. unfold target. rewrite H.
  now rewrite andb_false_r.
Qed.

(** C1. Routing follows the three-step tie-break policy in every reachable
    registry state: a session id with an entry is routed to exactly that
    entry's transport; an absent or unknown id is routed to the first entry
    in iteration order when there is one; and on an empty registry the
    request is answered 400 "No active connections" and nothing is
    forwarded. *)
Theorem routeMessage_tie_break (evs : list Event) (req : PostRequest) :
  let s := run initial evs in
  (forall sid t,
      post_query_sessionId req = Some sid ->
      JsMap.get sid (connections s) = Some t ->
      forwarded req s = [(t, post_body req)]) /\
  (forall k t rest,
      post_query_sessionId req = None \/
      (exists sid, post_query_sessionId req = Some sid /\
                   JsMap.has sid (connections s) = false) ->
      connections s = (k, t) :: rest ->
      forwarded req s = [(t, post_body req)]) /\
  (connections s = [] ->
   forwarded req s = [] /\
   replied (routeMessage req) s = Some (400, JsonError "No active connections")).
Proof.
  intros s. pose proof (Inv_reachable evs) as HI. fold s in HI.
  repeat split.
  - intros sid t Hq Hget. rewrite forwarded_target, Hq. unfold target.
    assert (Hne : sid <> "").
    { apply get_in in Hget. exact (inv_keys s HI (sid, t) Hget). }
    apply String.eqb_neq in Hne. rewrite Hne. unfold JsMap.has.
    now rewrite Hget.
  - intros k t rest Hq Hm. rewrite forwarded_target, Hm.
    destruct Hq as [-> | [sid [-> Hhas]]].
    + reflexivity.
    + rewrite Hm in Hhas.
      now rewrite (proj2 (target_first_none sid k t rest) Hhas).
  - rewrite forwarded_target, H. now destruct (post_query_sessionId req) as [sid|];
      cbn; rewrite ?andb_false_r.
  - unfold replied. rewrite routeMessage_exec, H.
    now destruct (post_query_sessionId req) as [sid|]; cbn; rewrite ?andb_false_r.
Qed.

(** Two sessions are open, ["a"] first and ["b"] second; the third event is
    a close of ["zz"], which is not registered. *)
Lemma routeMessage_tie_break_witness :
  let open id := GetSse (mkSseRequest (Some id) "k3x" "lq1" None (mkAttempt true None)) in
  let post q := mkPostRequest q "ping" (mkAttempt true None) in
  let s := run initial [open "a"; open "b"; ReqClose "zz"] in
  forwarded (post (Some "b")) s = [(mkTransport 1 "/messages?sessionId=b", "ping")] /\
  forwarded (post (Some "nope")) s = [(mkTransport 0 "/messages?sessionId=a", "ping")] /\
  forwarded (post None) s = [(mkTransport 0 "/messages?sessionId=a", "ping")] /\
  (forwarded (post None) initial = [] /\
   replied (routeMessage (post None)) initial
   = Some (400, JsonError "No active connections")).
Proof.
  intros open post s.
  pose proof (routeMessage_tie_break [open "a"; open "b"; ReqClose "zz"]) as T.
  repeat apply conj.
  - apply (proj1 (T (post (Some "b"))) "b"); reflexivity.
  - apply (proj1 (proj2 (T (post (Some "nope")))) "a" _ [("b", mkTransport 1 "/messages?sessionId=b")]).
    + right. exists "nope". split; reflexivity.
    + reflexivity.
  - apply (proj1 (proj2 (T (post None))) "a" _ [("b", mkTransport 1 "/messages?sessionId=b")]).
    + left. reflexivity.
    + reflexivity.
  - apply (proj2 (proj2 (routeMessage_tie_break [] (post None)))). reflexivity.
  - apply (proj2 (proj2 (routeMessage_tie_break [] (post None)))). reflexivity.
Defined.

(** *** Opening a session when the attach fails *)

Lemma openSession_exec_attach_throws req s e :
  sse_construct req = None ->
  failure (sse_connect req) = Some e ->
  exec (openSession req) s =
  mkCtx (mkServer (JsMap.set (sessionId_of req) (minted req s) (connections s))
                  (S (allocated s)))
        (if wrote_headers (sse_connect req)
         then mkResponse true None
         else mkResponse true
                (Some (500, EndText ("Server error: " ++ message_or e "Unknown error"))))
        [].
Proof.
  destruct s as [m n], req as [q r t c [w f]]; cbn. intros -> ->.
  destruct w; reflexivity.
Qed.

Lemma openSession_exec_construct_throws req s e :
  sse_construct req = Some e ->
  exec (openSession req) s =
  mkCtx s
        (mkResponse true
           (Some (500, EndText ("Server error: " ++ message_or e "Unknown error"))))
        [].
Proof.
  destruct s as [m n], req as [q r t c a]; cbn. intros ->. reflexivity.
Qed.

Lemma delete_set {V} k (v : V) (m : JsMap.t V) :
  JsMap.delete k (JsMap.set k v m) = JsMap.delete k m.
Proof.
  induction m as [|[k' v'] m IH]; cbn.
  - now rewrite String.eqb_refl.
  - destruct (String.eqb_spec k' k) as [->|Hne]; cbn.
    + now rewrite String.eqb_refl.
    + apply String.eqb_neq in Hne. rewrite Hne. now rewrite IH.
Qed.

(** When the handler ended the response: the constructor threw, or the
    attach threw before any header was sent. *)
Lemma handler_ended_cases req s :
  handler_ended req s =
  match sse_construct req with
  | Some _ => true
  | None =>
      match failure (sse_connect req) with
      | Some _ => negb (wrote_headers (sse_connect req))
      | None => false
      end
  end.
Proof.
  destruct s as [m n], req as [q r t [e|] [w [f|]]]; cbn;
    try destruct w; reflexivity.
Qed.

Lemma serve_sse_open req s :
  handler_ended req s = false ->
  sse_construct req = None /\ serve_sse s req = step s (GetSse req).
Proof.
  intros H. unfold serve_sse. rewrite H. split; [|reflexivity].
  rewrite handler_ended_cases in H. now destruct (sse_construct req).
Qed.

(** Events that do not concern an id leave its entry as it is. *)
Lemma entry_kept id t : forall evs s,
  JsMap.get id (connections s) = Some t ->
  forallb (fun ev => negb (concerns id ev)) evs = true ->
  JsMap.get id (connections (run s evs)) = Some t.
Proof.
  induction evs as [|ev evs IH]; intros s Hget Hall; [exact Hget|].
  cbn [forallb] in Hall. apply andb_prop in Hall as [Hev Hall].
  change (run s (ev :: evs)) with (run (step s ev) evs).
  apply IH; [|exact Hall]. apply negb_true_iff in Hev.
  destruct ev as [req|k|req]; cbn [step concerns] in *.
  - apply String.eqb_neq in Hev. rewrite srv_openSession.
    destruct (sse_construct req); [exact Hget|]. cbn [connections].
    rewrite get_set_other; [exact Hget | congruence].
  - apply String.eqb_neq in Hev. rewrite srv_closeSession. cbn [connections].
    rewrite get_delete_other; [exact Hget | congruence].
  - now rewrite srv_routeMessage.
Qed.

(** C2, as stated, fails.  A connection asking for session ["s1"] whose
    [server.connect] throws after the headers of the event stream were
    sent: the handler only logs the failure and does not end the response,
    so no [close] event is due, and ["s1"] is registered from then on.  The
    registry was written before the attach was attempted and the handler
    never takes the entry back; a following POST for ["s1"] is handed to
    the transport that failed to attach. *)
Lemma openSession_not_atomic_counterexample :
  let req := mkSseRequest (Some "s1") "k3x" "lq1" None
                          (mkAttempt true (Some (mkError "stream reset"))) in
  sse_construct req = None /\
  failure (sse_connect req) = Some (mkError "stream reset") /\
  replied (openSession req) initial = None /\
  handler_ended req initial = false /\
  JsMap.has "s1" (connections initial) = false /\
  JsMap.has "s1" (connections (serve_sse initial req)) = true /\
  connections (serve_sse initial req) <> connections initial /\
  forwarded (mkPostRequest (Some "s1") "ping" (mkAttempt true None))
            (serve_sse initial req)
  = [(mkTransport 0 "/messages?sessionId=s1", "ping")].
Proof. repeat split; discriminate. Qed.

(** C2, amended.  When attaching the server to the newly constructed
    transport throws, the session has already been stored in the registry
    under its id, and the handler does not take it back: at the handler's
    return the id maps to the new transport, and it keeps doing so through
    every later event that is neither a [close] for that id nor another
    [GET /sse] under it; the [close] listener removes it.  A 500 status is
    sent exactly when the headers had not been sent.  That ends the
    response, so the [close] event follows at once and the id is gone
    before the next request; with the headers already sent the entry
    remains.  The registry is written only after the transport is
    constructed: if the constructor throws, the handler leaves the server
    state unchanged and sends a 500 status, and the [close] event that
    follows removes whatever entry the id had. *)
Theorem openSession_on_failure (req : SseRequest) (s : Server) :
  (forall e,
      sse_construct req = None ->
      failure (sse_connect req) = Some e ->
      let s' := srv (exec (openSession req) s) in
      connections s'
      = JsMap.set (sessionId_of req) (minted req s) (connections s) /\
      JsMap.get (sessionId_of req) (connections s') = Some (minted req s) /\
      (forall evs,
          forallb (fun ev => negb (concerns (sessionId_of req) ev)) evs = true ->
          JsMap.get (sessionId_of req) (connections (run s' evs))
          = Some (minted req s)) /\
      JsMap.has (sessionId_of req)
                (connections (step s' (ReqClose (sessionId_of req)))) = false /\
      replied (openSession req) s
      = (if wrote_headers (sse_connect req) then None
         else Some (500, EndText ("Server error: " ++ message_or e "Unknown error"))) /\
      connections (serve_sse s req)
      = (if wrote_headers (sse_connect req)
         then JsMap.set (sessionId_of req) (minted req s) (connections s)
         else JsMap.delete (sessionId_of req) (connections s))) /\
  (forall e,
      sse_construct req = Some e ->
      srv (exec (openSession req) s) = s /\
      replied (openSession req) s
      = Some (500, EndText ("Server error: " ++ message_or e "Unknown error")) /\
      connections (serve_sse s req) = JsMap.delete (sessionId_of req) (connections s)).
Proof.
  split.
  - intros e Hc Hf s'. subst s'.
    assert (Hended : handler_ended req s = negb (wrote_headers (sse_connect req))).
    { now rewrite handler_ended_cases, Hc, Hf. }
    unfold serve_sse. rewrite Hended. cbn [step]. unfold replied.
    rewrite (openSession_exec_attach_throws req s e Hc Hf). cbn [srv connections].
    split; [reflexivity|]. split; [apply get_set_same|].
    split; [|split; [|split]].
    + intros evs Hall. apply entry_kept; [apply get_set_same | exact Hall].
    + cbn [step]. rewrite srv_closeSession. cbn. apply has_delete_same.
    + now destruct (wrote_headers (sse_connect req)).
    + destruct (wrote_headers (sse_connect req)); cbn [negb]; [reflexivity|].
      rewrite srv_closeSession. cbn [connections]. apply delete_set.
  - intros e Hc.
    assert (Hended : handler_ended req s = true).
    { now rewrite handler_ended_cases, Hc. }
    unfold serve_sse. rewrite Hended. cbn [step]. unfold replied.
    rewrite (openSession_exec_construct_throws req s e Hc). cbn [srv res sent].
    split; [reflexivity|]. split; [reflexivity|].
    now rewrite srv_closeSession.
Qed.

Lemma openSession_on_failure_witness :
  let late := mkSseRequest (Some "s1") "k3x" "lq1" None
                           (mkAttempt true (Some (mkError "stream reset"))) in
  let early := mkSseRequest None "k3x" "lq1" (Some (mkError "")) (mkAttempt false None) in
  let other := mkSseRequest (Some "s2") "k3x" "lq1" None (mkAttempt true None) in
  (JsMap.get "s1" (connections (srv (exec (openSession late) initial)))
   = Some (mkTransport 0 "/messages?sessionId=s1") /\
   JsMap.get "s1"
     (connections (run (srv (exec (openSession late) initial))
                       [GetSse other;
                        PostMessages (mkPostRequest None "ping" (mkAttempt true None));
                        ReqClose "s2"]))
   = Some (mkTransport 0 "/messages?sessionId=s1") /\
   replied (openSession late) initial = None /\
   connections (serve_sse initial late) = [("s1", mkTransport 0 "/messages?sessionId=s1")]) /\
  (srv (exec (openSession early) initial) = initial /\
   replied (openSession early) initial
   = Some (500, EndText "Server error: Unknown error") /\
   connections (serve_sse initial early) = []).
Proof.
  intros late early other. split.
  - pose proof (proj1 (openSession_on_failure late initial)
                  (mkError "stream reset") eq_refl eq_refl)
      as [_ [H2 [H3 [_ [H5 H6]]]]].
    split; [exact H2|]. split; [|split; [exact H5 | exact H6]].
    exact (H3 [GetSse other;
               PostMessages (mkPostRequest None "ping" (mkAttempt true None));
               ReqClose "s2"] eq_refl).
  - exact (proj2 (openSession_on_failure early initial) (mkError "") eq_refl).
Defined.

(** *** Closing a session *)

Lemma gone_step t s e : gone t s -> gone t (step s e).
Proof.
  intros [Hlt Hout]. destruct e as [req|sid|req]; cbn [step].
  - rewrite srv_openSession. destruct (sse_construct req); [now split|].
    split; cbn; [lia|].
    intros e Hin. apply in_set in Hin as [->|Hin]; cbn; [lia | auto].
  - rewrite srv_closeSession. split; cbn; [assumption|].
    intros e Hin. apply in_delete in Hin as [Hin _]. auto.
  - now rewrite srv_routeMessage.
Qed.

Lemma gone_run t evs : forall s, gone t s -> gone t (run s evs).
Proof.
  induction evs as [|e evs IH]; cbn; intros s H; [assumption|].
  apply IH, gone_step, H.
Qed.

Lemma objs_unique (m : JsMap.t SSEServerTransport) e1 e2 :
  NoDup (map t_obj (JsMap.values m)) ->
  In e1 m -> In e2 m -> t_obj (snd e1) = t_obj (snd e2) -> e1 = e2.
Proof.
  induction m as [|e0 m IH]; cbn; intros Hnd H1 H2 Heq; [tauto|].
  inversion Hnd as [|? ? Hnotin Hnd']; subst.
  assert (Hmem : forall e, In e m -> In (t_obj (snd e)) (map t_obj (JsMap.values m))).
  { intros e He. apply in_map. unfold JsMap.values. now apply in_map. }
  destruct H1 as [<-|H1], H2 as [<-|H2]; auto.
  - exfalso. apply Hnotin. rewrite Heq. auto.
  - exfalso. apply Hnotin. rewrite <- Heq. auto.
Qed.

Lemma gone_after_close s sessionId t :
  Inv s ->
  JsMap.get sessionId (connections s) = Some t ->
  gone t (step s (ReqClose sessionId)).
Proof.
  intros [Hk Ho Hn] Hget. cbn [step]. rewrite srv_closeSession.
  apply get_in in Hget. split; cbn.
  - exact (Ho _ Hget).
  - intros e Hin Heq. apply in_delete in Hin as [Hin Hne].
    apply Hne. now rewrite (objs_unique _ e (sessionId, t) Hn Hin Hget Heq).
Qed.

(** C3. Once the close listener has removed a session, its transport is
    never again the target of a forwarded message, whatever happens next and
    whatever session id a later POST carries; and if it was the only
    registered session, the next POST is answered "No active connections"
    and forwarded nowhere. *)
Theorem closed_session_never_routed
  (before after : list Event) (sessionId : string)
  (t : SSEServerTransport) (req : PostRequest) :
  let s1 := run initial before in
  JsMap.get sessionId (connections s1) = Some t ->
  let s2 := step s1 (ReqClose sessionId) in
  (forall t' payload,
      In (t', payload) (forwarded req (run s2 after)) -> t_obj t' <> t_obj t) /\
  (connections s1 = [(sessionId, t)] ->
   forwarded req s2 = [] /\
   replied (routeMessage req) s2 = Some (400, JsonError "No active connections")).
Proof.
  intros s1 Hget s2. split.
  - intros t' payload Hin.
    pose proof (gone_run t after s2
                  (gone_after_close s1 sessionId t (Inv_reachable before) Hget))
      as [_ Hout].
    rewrite forwarded_target in Hin.
    destruct (target (post_query_sessionId req) (connections (run s2 after)))
      as [t0|] eqn:Ht; [|destruct Hin].
    destruct Hin as [[= <- _]|[]].
    apply target_in in Ht. unfold JsMap.values in Ht.
    apply in_map_iff in Ht as [e [<- He]]. auto.
  - intros Hone.
    assert (Hempty : connections s2 = []).
    { subst s2. cbn [step]. rewrite srv_closeSession, Hone. cbn.
      now rewrite String.eqb_refl. }
    unfold replied. rewrite forwarded_target, routeMessage_exec, Hempty.
    now destruct (post_query_sessionId req) as [sid|]; cbn; rewrite ?andb_false_r.
Qed.

Lemma closed_session_never_routed_witness :
  let open id := GetSse (mkSseRequest (Some id) "k3x" "lq1" None (mkAttempt true None)) in
  let post q := mkPostRequest q "ping" (mkAttempt true None) in
  let ta := mkTransport 0 "/messages?sessionId=a" in
  (forall t' payload,
      In (t', payload)
         (forwarded (post (Some "a"))
                    (run (step (run initial [open "a"; open "b"]) (ReqClose "a"))
                         [open "a"]))
      -> t_obj t' <> 0) /\
  (forwarded (post (Some "a")) (step (run initial [open "a"]) (ReqClose "a")) = [] /\
   replied (routeMessage (post (Some "a")))
           (step (run initial [open "a"]) (ReqClose "a"))
   = Some (400, JsonError "No active connections")).
Proof.
  intros open post ta. split.
  - exact (proj1 (closed_session_never_routed [open "a"; open "b"] [open "a"]
                    "a" ta (post (Some "a")) eq_refl)).
  - exact (proj2 (closed_session_never_routed [open "a"] [] "a" ta
                    (post (Some "a")) eq_refl) eq_refl).
Defined.

(** C9. The close listener is idempotent: it removes the entry of its
    session id and no other, it leaves the server unchanged when the id is
    not registered, it never throws nor answers, and running it a second
    time changes nothing. *)
Theorem closeSession_idempotent (s : Server) (sessionId : string) :
  let s' := step s (ReqClose sessionId) in
  JsMap.has sessionId (connections s') = false /\
  (forall k, k <> sessionId ->
             JsMap.get k (connections s') = JsMap.get k (connections s)) /\
  (JsMap.has sessionId (connections s) = false -> s' = s) /\
  step s' (ReqClose sessionId) = s' /\
  fst (closeSession sessionId (fresh s)) = Returned tt.
Proof.
  cbn [step]. rewrite !srv_closeSession. cbn [connections allocated].
  repeat split.
  - apply has_delete_same.
  - intros k Hk. now apply get_delete_other.
  - intros H. destruct s as [m n]; cbn in *. now rewrite delete_absent.
  - now rewrite delete_idem.
  - unfold closeSession, bind, connections_has; cbn.
    now destruct (JsMap.has sessionId (connections s)).
Qed.

Lemma closeSession_idempotent_witness :
  let s := run initial
             [GetSse (mkSseRequest (Some "a") "k3x" "lq1" None (mkAttempt true None))] in
  JsMap.get "a" (connections (step s (ReqClose "b"))) = JsMap.get "a" (connections s) /\
  step s (ReqClose "b") = s.
Proof.
  intros s. split.
  - apply (proj1 (proj2 (closeSession_idempotent s "b")) "a"). discriminate.
  - apply (proj1 (proj2 (proj2 (closeSession_idempotent s "b")))). reflexivity.
Defined.

(** C10. Handling [POST /messages] leaves the server state, and so the
    registry with its entries and their order, exactly as it was, whichever
    session id the request carries and whether or not the transport throws.
    Over all events, a key enters the registry only through [GET /sse] and
    leaves it only through the close listener of that key. *)
Theorem routeMessage_frame (s : Server) (req : PostRequest) :
  srv (exec (routeMessage req) s) = s /\
  connections (step s (PostMessages req)) = connections s /\
  (forall e k,
      JsMap.has k (connections s) = false ->
      JsMap.has k (connections (step s e)) = true ->
      exists r, e = GetSse r) /\
  (forall e k,
      JsMap.has k (connections s) = true ->
      JsMap.has k (connections (step s e)) = false ->
      e = ReqClose k).
Proof.
  repeat split.
  - apply srv_routeMessage.
  - cbn [step]. now rewrite srv_routeMessage.
  - intros e k H0 H1. destruct e as [r|sid|r]; cbn [step] in H1.
    + now exists r.
    + rewrite srv_closeSession in H1. cbn in H1. unfold JsMap.has in *.
      destruct (String.eqb_spec k sid) as [->|Hne].
      * now rewrite get_delete_same in H1.
      * rewrite get_delete_other in H1 by assumption. congruence.
    + rewrite srv_routeMessage in H1. congruence.
  - intros e k H0 H1. destruct e as [r|sid|r]; cbn [step] in H1.
    + rewrite srv_openSession in H1. destruct (sse_construct r); [congruence|].
      cbn in H1. unfold JsMap.has in *.
      destruct (String.eqb_spec k (sessionId_of r)) as [->|Hne].
      * now rewrite get_set_same in H1.
      * rewrite get_set_other in H1 by assumption. congruence.
    + rewrite srv_closeSession in H1. cbn in H1. unfold JsMap.has in *.
      destruct (String.eqb_spec k sid) as [->|Hne]; [reflexivity|].
      rewrite get_delete_other in H1 by assumption. congruence.
    + rewrite srv_routeMessage in H1. congruence.
Qed.

Lemma routeMessage_frame_witness :
  let open id := GetSse (mkSseRequest (Some id) "k3x" "lq1" None (mkAttempt true None)) in
  (exists r, open "a" = GetSse r) /\
  ReqClose "a" = ReqClose "a".
Proof.
  intros open.
  pose proof (routeMessage_frame initial (mkPostRequest None "ping" (mkAttempt true None)))
    as [_ [_ [Hin _]]].
  pose proof (routeMessage_frame (run initial [open "a"])
                (mkPostRequest None "ping" (mkAttempt true None)))
    as [_ [_ [_ Hout]]].
  split.
  - exact (Hin (open "a") "a" eq_refl eq_refl).
  - exact (Hout (ReqClose "a") "a" eq_refl eq_refl).
Defined.

End HttpServerFacts.

(* ===================================================================== *)
(** ** Computations that cannot throw *)
(* ===================================================================== *)

Module EffFacts.
Local Open Scope eff_scope.
Section WithStore.
Context {S A : Type}.
Implicit Types (P : A -> Prop) (c : Eff S A).

Lemma total_partial P c : total P c -> partial P c.
Proof.
  intros H s a Hc. destruct (H s) as [a' [Ha' HP]]. congruence.
Qed.

Lemma total_ret P a : P a -> total P (ret a : Eff S A).
Proof. intros H s. now exists a. Qed.

Lemma partial_ret P a : P a -> partial P (ret a : Eff S A).
Proof. intros H s a' [= <-]. exact H. Qed.

Lemma partial_throw P e : partial P (throw e : Eff S A).
Proof. intros s a. discriminate. Qed.

Lemma partial_if P (b : bool) c1 c2 :
  partial P c1 -> partial P c2 -> partial P (if b then c1 else c2).
Proof. now destruct b. Qed.

Lemma total_if P (b : bool) c1 c2 :
  total P c1 -> total P c2 -> total P (if b then c1 else c2).
Proof. now destruct b. Qed.

Lemma total_try_catch P c (h : JsError -> Eff S A) :
  partial P c -> (forall e, total P (h e)) -> total P (try_catch c h).
Proof.
  intros Hc Hh s. unfold try_catch.
  destruct (c s) as [[a|e] s'] eqn:E.
  - exists a. split; [reflexivity|]. apply (Hc s). now rewrite E.
  - apply Hh.
Qed.

End WithStore.

Lemma partial_bind {S A B} (P : B -> Prop) (c : Eff S A) (k : A -> Eff S B) :
  (forall a, partial P (k a)) -> partial P (bind c k).
Proof.
  intros Hk s b. unfold bind. destruct (c s) as [[a|e] s'].
  - apply Hk.
  - discriminate.
Qed.

Lemma total_bind {S A B} (P : B -> Prop) (c : Eff S A) (k : A -> Eff S B) :
  total (fun _ => True) c -> (forall a, total P (k a)) -> total P (bind c k).
Proof.
  intros Hc Hk s. unfold bind. destruct (Hc s) as [a [Ha _]].
  destruct (c s) as [[a'|e] s']; cbn in Ha; [|discriminate].
  apply Hk.
Qed.

End EffFacts.

(* ===================================================================== *)
(** ** The tools *)
(* ===================================================================== *)

Module McpServerFacts.
Import Runtime Formatter McpServer EffFacts.
Local Open Scope eff_scope.

Lemma structured_ok text : structured (ok_text text).
Proof. split; [now exists text | now left]. Qed.

Lemma structured_error text : structured (error_text text).
Proof. split; [now exists text | now right]. Qed.

Lemma structured_not_configured : structured not_configured.
Proof. apply structured_error. Qed.

Create HintDb tools.
#[local] Hint Resolve structured_ok structured_error structured_not_configured : tools.

Ltac step_partial :=
  first
    [ apply partial_ret; auto with tools
    | apply partial_throw
    | apply partial_if
    | apply partial_bind; intro
    | match goal with |- partial _ (match ?x with _ => _ end) => destruct x end
    | match goal with |- partial _ (let _ := _ in _) => cbv zeta end ].

Ltac step_total :=
  first
    [ apply total_ret; auto with tools
    | apply total_if
    | apply total_try_catch; [repeat step_partial | intro]
    | match goal with |- total _ (match ?x with _ => _ end) => destruct x end ].

Section WithHost.
Variable loaded : Env.
Variable answer : Request -> Outcome JsValue.
Variable formatSearchResults : JsValue -> JsValue -> string -> Outcome string.
Variable JSON_stringify JSON_stringify_indented : JsValue -> string.
Variable nl_search_help_text : string.

Local Abbreviation handler :=
  (handler loaded answer formatSearchResults JSON_stringify JSON_stringify_indented
           nl_search_help_text).

Lemma total_effectiveUrl : total (fun _ => True) (effectiveUrl loaded).
Proof. intros w. eexists. split; [reflexivity | exact I]. Qed.

Lemma total_effectiveToken : total (fun _ => True) (effectiveToken loaded).
Proof. intros w. eexists. split; [reflexivity | exact I]. Qed.

Lemma partial_render response finalQuery t :
  partial structured (render formatSearchResults JSON_stringify response finalQuery t).
Proof. unfold render. repeat step_partial. Qed.

Lemma total_naturalLanguageSearch q url token :
  total structured
        (naturalLanguageSearch loaded answer formatSearchResults JSON_stringify q url token).
Proof. unfold naturalLanguageSearch. repeat step_total. Qed.

Lemma analyzeQuery_total q :
  total (fun _ => True) (analyzeQuery loaded answer q).
Proof.
  unfold analyzeQuery. apply total_try_catch.
  - intros w a _. exact I.
  - intros e. now apply total_ret.
Qed.

Lemma handler_total call : total structured (handler call).
Proof.
  destruct call; cbn [McpServer.handler];
    unfold echo, search_code, search_commits, search_diffs, search_github_repos,
           natural_search, debug, test_nl_search, test_connection, nl_search_help,
           deep_code_researcher;
    try (apply total_bind; [apply total_effectiveUrl | intro];
         apply total_bind; [apply total_effectiveToken | intro]);
    repeat step_total;
    try apply partial_render;
    try apply total_naturalLanguageSearch.
Qed.

(** C4. Every registered tool handler is total with respect to errors:
    whatever the arguments, the environment, the answers of the remote ends
    and the behaviour of the formatter, the handler settles to a response
    made of one text block with an optional [isError] flag, and never to a
    thrown exception.  The un-awaited [analyzeQuery] started by the two
    natural-language tools cannot reject either. *)
Theorem tool_handlers_never_throw (call : ToolCall) (w : World) :
  (exists r, fst (handler call w) = Returned r /\ structured r) /\
  (forall q, exists a, fst (analyzeQuery loaded answer q w) = Returned a).
Proof.
  split.
  - apply handler_total.
  - intros q. destruct (analyzeQuery_total q w) as [a [Ha _]]. now exists a.
Qed.

(** *** The credential guard *)

Lemma guard_closed w :
  truthy (url_now loaded w) = false \/ truthy (token_now loaded w) = false ->
  negb (truthy (url_now loaded w)) || negb (truthy (token_now loaded w)) = true.
Proof. intros [-> | ->]; [reflexivity | apply orb_true_r]. Qed.

Lemma guarded_handler call w :
  is_search_tool call = true ->
  truthy (url_now loaded w) = false \/ truthy (token_now loaded w) = false ->
  handler call w = (Returned not_configured, w).
Proof.
  intros Hs Hg. apply guard_closed in Hg. unfold url_now, token_now in Hg.
  destruct call; try discriminate Hs; cbn [McpServer.handler];
    unfold search_code, search_commits, search_diffs, search_github_repos,
           natural_search, effectiveUrl, effectiveToken, bind, process_env, ret;
    cbn; rewrite Hg; reflexivity.
Qed.

(** C5.  The program only reads [process.env]: nothing deletes or assigns
    a variable after the module has captured [sgUrl] and [sgToken], so a
    variable that is unset when a tool is invoked was unset when the module
    was loaded.  Under that condition every search tool invoked with
    [SOURCEGRAPH_URL] or [SOURCEGRAPH_TOKEN] unset answers with the
    configuration error, flagged [isError: true], and sends no request at
    all. *)
Theorem search_tools_require_credentials (call : ToolCall) (w : World) :
  is_search_tool call = true ->
  (SOURCEGRAPH_URL (env w) = None -> SOURCEGRAPH_URL loaded = None) ->
  (SOURCEGRAPH_TOKEN (env w) = None -> SOURCEGRAPH_TOKEN loaded = None) ->
  SOURCEGRAPH_URL (env w) = None \/ SOURCEGRAPH_TOKEN (env w) = None ->
  fst (handler call w) = Returned not_configured /\
  isError not_configured = Some true /\
  requests (snd (handler call w)) = requests w.
Proof.
  intros Hs Hurl Htoken Hunset.
  assert (Hg : truthy (url_now loaded w) = false \/ truthy (token_now loaded w) = false).
  { unfold url_now, token_now, sgUrl, sgToken.
    destruct Hunset as [H|H]; [left; rewrite (Hurl H), H | right; rewrite (Htoken H), H];
      reflexivity. }
  now rewrite (guarded_handler call w Hs Hg).
Qed.

(** C7. With a URL and a token in effect, [search-code] called with
    [{query: "foo", type: "file"}] builds exactly the query
    ["foo type:file count:20"], and the one request it sends, the first
    thing the handler puts on the network, is the executor's POST carrying
    that query with the file-search document. *)
Theorem search_code_foo_file (w : World) (url token : string) :
  url_now loaded w = Some url -> url <> "" ->
  token_now loaded w = Some token -> token <> "" ->
  search_code_query "foo" file = "foo type:file count:20" /\
  requests (snd (handler (SearchCode "foo" file) w))
  = (requests w
     ++ [SourcegraphPost (url ++ "/.api/graphql") ("token " ++ token) FileSearch
                         (Some "foo type:file count:20")])%list.
Proof.
  intros Hu Hune Ht Htne. split; [reflexivity|].
  apply String.eqb_neq in Hune, Htne.
  unfold url_now, token_now in *.
  cbn [McpServer.handler].
  unfold search_code, effectiveUrl, effectiveToken, bind, process_env, ret,
         try_catch, executeSourcegraphSearch, axios_post; cbn.
  rewrite Hu, Ht. cbn. rewrite Hune, Htne. cbn.
  destruct (answer _) as [response|e]; cbn; [|reflexivity].
  unfold render, bind, settle, ret.
  destruct (prop response "errors") as [errors|e]; cbn; [|reflexivity].
  destruct (js_truthy errors); cbn; [reflexivity|].
  destruct (prop response "data") as [data|e]; cbn; [|reflexivity].
  destruct (prop data "search") as [found|e]; cbn; [|reflexivity].
  destruct (prop found "results") as [results|e]; cbn; [|reflexivity].
  now destruct (formatSearchResults _ _ _).
Qed.

End WithHost.

Lemma search_tools_require_credentials_witness :
  let now := mkEnv (Some "https://sg.example") None None None None None None in
  let answer := fun _ : Request => Returned JNull in
  let format := fun (_ _ : JsValue) (_ : string) => Returned "" in
  let run := handler now answer format (fun _ => "") (fun _ => "") ""
                     (SearchCommits (Some "jane") None None) (mkWorld now []) in
  fst run = Returned not_configured /\ isError not_configured = Some true /\
  requests (snd run) = [].
Proof.
  intros now answer format run.
  apply (search_tools_require_credentials now answer format (fun _ => "") (fun _ => "") ""
           (SearchCommits (Some "jane") None None) (mkWorld now []) eq_refl).
  - discriminate.
  - reflexivity.
  - right. reflexivity.
Defined.

Lemma search_code_foo_file_witness :
  let loaded := mkEnv None None None None None None None in
  let now := mkEnv (Some "https://sg.example") (Some "s3cr3t") None None None None None in
  let answer := fun _ : Request => Thrown (mkError "ECONNREFUSED") in
  let format := fun (_ _ : JsValue) (_ : string) => Returned "" in
  search_code_query "foo" file = "foo type:file count:20" /\
  requests (snd (handler loaded answer format (fun _ => "") (fun _ => "") ""
                         (SearchCode "foo" file) (mkWorld now [])))
  = [SourcegraphPost "https://sg.example/.api/graphql" "token s3cr3t" FileSearch
                     (Some "foo type:file count:20")].
Proof.
  intros loaded now answer format.
  apply (search_code_foo_file loaded answer format (fun _ => "") (fun _ => "") ""
           (mkWorld now []) "https://sg.example" "s3cr3t");
    first [reflexivity | discriminate].
Defined.

(** *** The query builder of [search-code] *)

Lemma prefix_type_count s :
  String.prefix "type:" (s ++ " count:20") = String.prefix "type:" s.
Proof.
  do 5 (destruct s as [|? s]; [reflexivity|];
        cbn [append String.prefix]; destruct (ascii_dec _ _); [|reflexivity]).
  now destruct s.
Qed.

Lemma occurrences_type_count s :
  Js.occurrences "type:" (s ++ " count:20") = Js.occurrences "type:" s.
Proof.
  induction s as [|c s IH]; [reflexivity|].
  change (String c s ++ " count:20") with (String c (s ++ " count:20")).
  cbn [Js.occurrences]. rewrite IH.
  change (String c (s ++ " count:20")) with (String c s ++ " count:20").
  now rewrite prefix_type_count.
Qed.

(** C8. When the query given to [search-code] already contains a [type:]
    clause, the builder appends none: the query it builds has as many
    [type:] directives as the input. *)
Theorem search_code_keeps_type (query : string) (t : SearchType) :
  Js.includes query "type:" = true ->
  Js.occurrences "type:" (search_code_query query t) = Js.occurrences "type:" query.
Proof.
  intros H. unfold search_code_query. rewrite H.
  destruct (Js.includes query "count:"); [reflexivity|].
  apply occurrences_type_count.
Qed.

Lemma search_code_keeps_type_witness :
  Js.occurrences "type:" (search_code_query "repo:a/b type:diff fix" file) = 1.
Proof.
  exact (search_code_keeps_type "repo:a/b type:diff fix" file eq_refl).
Defined.

(** *** The natural-language translator *)

Section Translator.
Variable loaded : Env.
Variable answer : Request -> Outcome JsValue.

Lemma parseWithRules_type q :
  qa_type (parseWithRules q) = "file" \/
  qa_type (parseWithRules q) = "commit" \/
  qa_type (parseWithRules q) = "diff".
Proof.
  unfold parseWithRules. cbn [qa_type].
  destruct (Js.test re_commit_words q); [auto|].
  destruct (Js.test re_diff_words q); auto.
Qed.

(** C6, amended.  [analyzeQuery] never throws.  When the provider call
    throws, whether for a missing key, a failed request or an unsupported
    provider, it returns the rule-based analysis of the input, whose search
    type is [file], [commit] or [diff] and which keeps the original input;
    the free-text [query] of that analysis is whatever is left after the
    recognised words are removed, and nothing makes it non-empty. *)
Theorem analyzeQuery_falls_back (q : string) (w : World) :
  (exists a, fst (analyzeQuery loaded answer q w) = Returned a) /\
  (forall e,
      fst (convertQueryToSourcegraphSyntax loaded answer q w) = Thrown e ->
      fst (analyzeQuery loaded answer q w) = Returned (parseWithRules q)) /\
  (qa_type (parseWithRules q) = "file" \/
   qa_type (parseWithRules q) = "commit" \/
   qa_type (parseWithRules q) = "diff") /\
  qa_originalQuery (parseWithRules q) = q.
Proof.
  repeat split.
  - destruct (analyzeQuery_total loaded answer q w) as [a [Ha _]]. now exists a.
  - intros e He. unfold analyzeQuery, try_catch, bind.
    destruct (convertQueryToSourcegraphSyntax loaded answer q w) as [[s|e'] w'];
      cbn in He; [discriminate | reflexivity].
  - apply parseWithRules_type.
Qed.

End Translator.

(** C6, as stated, fails.  With [LLM_PROVIDER=cohere] the provider call
    throws; the translator falls back to the rules and does not throw, but
    for the input ["find commits"] the query it returns is the empty
    string.  The same happens when the OpenAI request fails on ["find"]. *)
Lemma fallback_query_empty_counterexample :
  let unsupported := mkEnv None None (Some "cohere") (Some "sk-test") None None None in
  let openai := mkEnv None None (Some "openai") (Some "sk-test") None None None in
  let offline := fun _ : Request => Thrown (mkError "ECONNRESET") in
  fst (convertQueryToSourcegraphSyntax unsupported offline "find commits"
         (mkWorld unsupported []))
  = Thrown (mkError "Unsupported LLM provider: cohere") /\
  fst (analyzeQuery unsupported offline "find commits" (mkWorld unsupported []))
  = Returned (mkAnalysis "commit" "" None None [] "find commits") /\
  fst (convertQueryToSourcegraphSyntax openai offline "find" (mkWorld openai []))
  = Thrown (mkError "ECONNRESET") /\
  fst (analyzeQuery openai offline "find" (mkWorld openai []))
  = Returned (mkAnalysis "file" "" None None [] "find").
Proof. repeat split; vm_compute; reflexivity. Qed.

Lemma analyzeQuery_falls_back_witness :
  let missing_key := mkEnv None None (Some "openai") None None (Some "ak-test") None in
  let offline := fun _ : Request => Thrown (mkError "ECONNRESET") in
  fst (analyzeQuery missing_key offline "commits by jane since 2024-02-01"
         (mkWorld missing_key []))
  = Returned (parseWithRules "commits by jane since 2024-02-01").
Proof.
  intros missing_key offline.
  exact (proj1 (proj2 (analyzeQuery_falls_back missing_key offline
                         "commits by jane since 2024-02-01" (mkWorld missing_key [])))
               (mkError "OPENAI_API_KEY is not set") eq_refl).
Defined.

End McpServerFacts.

(* ===================================================================== *)
(** ** More about the session registry *)
(* ===================================================================== *)

Module HttpServerMore.
Import HttpServer HttpServerTrace.
Import JsMapFacts HttpServerFacts.

Lemma delete_set_absent {V} k (v : V) (m : JsMap.t V) :
  JsMap.has k m = false -> JsMap.delete k (JsMap.set k v m) = m.
Proof.
  unfold JsMap.has. induction m as [|[k' v'] m IH]; cbn.
  - now rewrite String.eqb_refl.
  - destruct (String.eqb_spec k' k) as [->|Hne]; [discriminate|].
    intros H. cbn. apply String.eqb_neq in Hne. rewrite Hne. now rewrite IH.
Qed.


Lemma size_set {V} k (v : V) (m : JsMap.t V) :
  JsMap.size (JsMap.set k v m) =
  if JsMap.has k m then JsMap.size m else S (JsMap.size m).
Proof.
  unfold JsMap.has, JsMap.size. induction m as [|[k' v'] m IH]; cbn; [reflexivity|].
  destruct (String.eqb_spec k' k) as [->|Hne]; cbn; [reflexivity|].
  rewrite IH. now destruct (JsMap.get k m).
Qed.

Lemma size_delete {V} k (m : JsMap.t V) :
  JsMap.size (JsMap.delete k m) <= JsMap.size m.
Proof.
  unfold JsMap.size. induction m as [|[k' v'] m IH]; cbn; [lia|].
  destruct (k' =? k); cbn; lia.
Qed.

(** X1. A session that was just opened is routable.  When the handler of
    a [GET /sse] did not end the response itself (the transport was
    constructed, and the attach succeeded or failed only after the headers
    were sent), a POST carrying that session id is handed to exactly the
    new transport. *)
Theorem opened_session_is_routed (s : Server) (open : SseRequest) (post : PostRequest) :
  handler_ended open s = false ->
  post_query_sessionId post = Some (sessionId_of open) ->
  forwarded post (serve_sse s open) = [(minted open s, post_body post)].
Proof.
  intros Hopen Hq. apply serve_sse_open in Hopen as [Hc ->].
  cbn [step]. rewrite forwarded_target, srv_openSession, Hc, Hq.
  cbn [connections target].
  pose proof (sessionId_of_nonempty open) as Hne. apply String.eqb_neq in Hne.
  unfold JsMap.has. now rewrite Hne, get_set_same.
Qed.

Lemma opened_session_is_routed_witness :
  forwarded (mkPostRequest (Some "a") "ping" (mkAttempt true None))
            (serve_sse initial (mkSseRequest (Some "a") "k3x" "lq1" None
                                             (mkAttempt true (Some (mkError "late")))))
  = [(mkTransport 0 "/messages?sessionId=a", "ping")].
Proof.
  exact (opened_session_is_routed initial
           (mkSseRequest (Some "a") "k3x" "lq1" None (mkAttempt true (Some (mkError "late"))))
           (mkPostRequest (Some "a") "ping" (mkAttempt true None)) eq_refl eq_refl).
Defined.

(** X2. Opening a session under an id that is not registered and then
    closing it gives back the registry as it was, entries and order. *)
Theorem open_close_round_trip (s : Server) (open : SseRequest) :
  JsMap.has (sessionId_of open) (connections s) = false ->
  connections (step (step s (GetSse open)) (ReqClose (sessionId_of open)))
  = connections s.
Proof.
  intros Hfresh. cbn [step]. rewrite srv_closeSession, srv_openSession.
  destruct (sse_construct open); cbn [connections].
  - now apply delete_absent.
  - now apply delete_set_absent.
Qed.

Lemma open_close_round_trip_witness :
  let open id := mkSseRequest (Some id) "k3x" "lq1" None (mkAttempt true None) in
  let s := run initial [GetSse (open "a")] in
  connections (step (step s (GetSse (open "b"))) (ReqClose "b")) = connections s.
Proof.
  intros open s. exact (open_close_round_trip s (open "b") eq_refl).
Defined.




(** X4. The close listener only knows the session id.  When two connections
    were opened under the same id, the close of the first one removes the
    entry that by then belongs to the second: the id is no longer
    registered and no POST reaches the transport of the second connection,
    which is still open. *)
Theorem stale_close_unregisters_newer
  (evs : list Event) (first second : SseRequest) (post : PostRequest) :
  let s := run initial evs in
  sse_construct first = None ->
  sse_construct second = None ->
  sessionId_of second = sessionId_of first ->
  let s1 := step s (GetSse first) in
  let s2 := step s1 (GetSse second) in
  let s3 := step s2 (ReqClose (sessionId_of first)) in
  JsMap.get (sessionId_of first) (connections s2) = Some (minted second s1) /\
  JsMap.has (sessionId_of first) (connections s3) = false /\
  (forall t payload,
      In (t, payload) (forwarded post s3) -> t_obj t <> t_obj (minted second s1)).
Proof.
  intros s H1 H2 Hid s1 s2 s3.
  assert (Hget : JsMap.get (sessionId_of first) (connections s2) = Some (minted second s1)).
  { subst s2. cbn [step]. rewrite srv_openSession, H2. cbn [connections].
    rewrite <- Hid. apply get_set_same. }
  assert (HI : Inv s2).
  { subst s2 s1. apply Inv_step, Inv_step, Inv_reachable. }
  repeat split.
  - exact Hget.
  - subst s3. cbn [step]. rewrite srv_closeSession. cbn. apply has_delete_same.
  - intros t payload Hin.
    pose proof (gone_after_close s2 _ _ HI Hget) as [_ Hout]. fold s3 in Hout.
    rewrite forwarded_target in Hin.
    destruct (target _ _) as [t0|] eqn:Ht; [|destruct Hin].
    destruct Hin as [[= <- _]|[]].
    apply target_in in Ht. unfold JsMap.values in Ht.
    apply in_map_iff in Ht as [e [<- He]]. auto.
Qed.

Lemma stale_close_unregisters_newer_witness :
  let open id := mkSseRequest (Some id) "k3x" "lq1" None (mkAttempt true None) in
  let s2 := run initial [GetSse (open "a"); GetSse (open "a")] in
  JsMap.get "a" (connections s2) = Some (mkTransport 1 "/messages?sessionId=a") /\
  JsMap.has "a" (connections (step s2 (ReqClose "a"))) = false.
Proof.
  intros open s2.
  pose proof (stale_close_unregisters_newer [] (open "a") (open "a")
                (mkPostRequest None "ping" (mkAttempt true None))
                eq_refl eq_refl eq_refl) as [H1 [H2 _]].
  split; [exact H1 | exact H2].
Defined.

Lemma endpoints_step s e :
  (forall x, In x (connections s) -> t_endpoint (snd x) = endpoint_of (fst x)) ->
  forall x, In x (connections (step s e)) -> t_endpoint (snd x) = endpoint_of (fst x).
Proof.
  intros H x. destruct e as [req|sid|req]; cbn [step].
  - rewrite srv_openSession. destruct (sse_construct req); [apply H|].
    cbn. intros Hin. apply in_set in Hin as [->|Hin]; [reflexivity | auto].
  - rewrite srv_closeSession. cbn. intros Hin. apply in_delete in Hin as [Hin _]. auto.
  - rewrite srv_routeMessage. apply H.
Qed.

(** X5. In every reachable state each registered transport announces the
    endpoint of the session id it is registered under: the entry for [k]
    holds a transport created with ["/messages?sessionId=" ++ k]. *)
Theorem registered_endpoint_names_its_session (evs : list Event) :
  forall k t,
    In (k, t) (connections (run initial evs)) ->
    t_endpoint t = endpoint_of k.
Proof.
  assert (H : forall s,
             (forall x, In x (connections s) -> t_endpoint (snd x) = endpoint_of (fst x)) ->
             forall x, In x (connections (run s evs)) ->
                       t_endpoint (snd x) = endpoint_of (fst x)).
  { induction evs as [|e evs IH]; cbn; intros s Hs; [exact Hs|].
    apply IH, endpoints_step, Hs. }
  intros k t Hin. apply (H initial (fun x (F : In x []) => match F with end) (k, t) Hin).
Qed.

Lemma registered_endpoint_names_its_session_witness :
  t_endpoint (mkTransport 0 "/messages?sessionId=a") = endpoint_of "a".
Proof.
  apply (registered_endpoint_names_its_session
           [GetSse (mkSseRequest (Some "a") "k3x" "lq1" None (mkAttempt true None))] "a").
  left. reflexivity.
Defined.

(** X6. With at least one session registered, every POST is handed to
    exactly one transport, whatever session id it carries.  The handler
    itself answers only when that transport throws before the headers were
    sent, and then with status 500 and the error's message. *)
Theorem routeMessage_delivers_once (s : Server) (req : PostRequest) :
  connections s <> [] ->
  (exists t, forwarded req s = [(t, post_body req)]) /\
  replied (routeMessage req) s =
  match failure (post_handle req) with
  | Some e =>
      if wrote_headers (post_handle req) then None
      else Some (500, JsonError ("Internal server error: " ++ message_or e "Unknown error"))
  | None => None
  end.
Proof.
  intros Hne.
  assert (Ht : exists t, target (post_query_sessionId req) (connections s) = Some t).
  { destruct (connections s) as [|[k t] m] eqn:Hm; [congruence|].
    unfold target. destruct (post_query_sessionId req) as [sid|]; [|now exists t].
    destruct (negb (sid =? "") && JsMap.has sid ((k, t) :: m)) eqn:Hb; [|now exists t].
    apply andb_prop in Hb as [_ Hb]. now apply has_get in Hb. }
  destruct Ht as [t Ht]. unfold replied. rewrite forwarded_target, routeMessage_exec, Ht.
  split; [now exists t|].
  destruct (failure (post_handle req)); cbn; [|reflexivity].
  now destruct (wrote_headers (post_handle req)).
Qed.

Lemma routeMessage_delivers_once_witness :
  let s := run initial [GetSse (mkSseRequest (Some "a") "k3x" "lq1" None
                                             (mkAttempt true None))] in
  replied (routeMessage (mkPostRequest (Some "zz") "ping"
                                       (mkAttempt false (Some (mkError "")))))
          s
  = Some (500, JsonError "Internal server error: Unknown error").
Proof.
  intros s.
  exact (proj2 (routeMessage_delivers_once s
                  (mkPostRequest (Some "zz") "ping" (mkAttempt false (Some (mkError ""))))
                  ltac:(discriminate))).
Defined.

Lemma allocated_step s e :
  allocated (step s e) = allocated s + constructed [e] /\
  JsMap.size (connections (step s e)) <= JsMap.size (connections s) + constructed [e].
Proof.
  destruct e as [req|sid|req]; cbn [step constructed].
  - rewrite srv_openSession. destruct (sse_construct req); cbn [allocated connections].
    + lia.
    + rewrite size_set. destruct (JsMap.has _ _); lia.
  - rewrite srv_closeSession. cbn [allocated connections].
    pose proof (size_delete sid (connections s)). lia.
  - rewrite srv_routeMessage. lia.
Qed.

(** X7. The registry grows only through constructed transports: after any
    trace the number of transport objects created equals the number of
    [GET /sse] requests whose constructor did not throw, and the registry
    holds at most that many entries. *)
Theorem registry_bounded_by_opens (evs : list Event) :
  allocated (run initial evs) = constructed evs /\
  JsMap.size (connections (run initial evs)) <= constructed evs.
Proof.
  assert (H : forall s,
             allocated (run s evs) = allocated s + constructed evs /\
             JsMap.size (connections (run s evs))
             <= JsMap.size (connections s) + constructed evs).
  { induction evs as [|e evs IH]; intros s.
    - cbn. lia.
    - change (run s (e :: evs)) with (run (step s e) evs).
      destruct (IH (step s e)) as [Ha Hs].
      destruct (allocated_step s e) as [Ha' Hs'].
      assert (Hc : constructed (e :: evs) = constructed [e] + constructed evs).
      { destruct e as [r| |]; cbn; [destruct (sse_construct r)|..]; lia. }
      split; lia. }
  destruct (H initial) as [Ha Hs]. cbn in Ha, Hs. split; lia.
Qed.

End HttpServerMore.

(* ===================================================================== *)
(** ** More about the tools *)
(* ===================================================================== *)

Module McpServerMore.
Import Runtime Formatter McpServer McpServerRequests EffFacts McpServerFacts.
Local Open Scope eff_scope.

Section WithHost.
Variable loaded : Env.
Variable answer : Request -> Outcome JsValue.
Variable formatSearchResults : JsValue -> JsValue -> string -> Outcome string.
Variable JSON_stringify JSON_stringify_indented : JsValue -> string.
Variable nl_search_help_text : string.

Local Abbreviation handler :=
  (handler loaded answer formatSearchResults JSON_stringify JSON_stringify_indented
           nl_search_help_text).
Local Abbreviation render := (render formatSearchResults JSON_stringify).

Lemma render_pure response q label w : snd (render response q label w) = w.
Proof.
  unfold McpServer.render, bind, settle, ret.
  destruct (prop response "errors") as [errors|e]; cbn; [|reflexivity].
  destruct (js_truthy errors); cbn; [reflexivity|].
  destruct (prop response "data") as [data|e]; cbn; [|reflexivity].
  destruct (prop data "search") as [found|e]; cbn; [|reflexivity].
  destruct (prop found "results") as [results|e]; cbn; [|reflexivity].
  now destruct (formatSearchResults _ _ _).
Qed.

Lemma render_world response q label w w' :
  fst (render response q label w) = fst (render response q label w').
Proof.
  unfold McpServer.render, bind, settle, ret.
  destruct (prop response "errors") as [errors|e]; cbn; [|reflexivity].
  destruct (js_truthy errors); cbn; [reflexivity|].
  destruct (prop response "data") as [data|e]; cbn; [|reflexivity].
  destruct (prop data "search") as [found|e]; cbn; [|reflexivity].
  destruct (prop found "results") as [results|e]; cbn; [|reflexivity].
  now destruct (formatSearchResults _ _ _).
Qed.

(** What a direct search tool does once the credentials are in effect. *)
Lemma direct_tool_run call doc q label w url token :
  search_arguments call = Some (doc, q, label) ->
  url_now loaded w = Some url -> url <> "" ->
  token_now loaded w = Some token -> token <> "" ->
  handler call w =
  (match answer (search_request url token doc q) with
   | Thrown e =>
       Returned (error_text (failure_prefix call ++ message_or e "Unknown error"))
   | Returned response =>
       match fst (render response q label w) with
       | Returned r => Returned r
       | Thrown e =>
           Returned (error_text (failure_prefix call ++ message_or e "Unknown error"))
       end
   end,
   mkWorld (env w) (requests w ++ [search_request url token doc q])%list).
Proof.
  intros Hargs Hu Hune Ht Htne.
  apply String.eqb_neq in Hune, Htne. unfold url_now, token_now in *.
  destruct call; try discriminate Hargs; cbn in Hargs; injection Hargs as <- <- <-;
    cbn [McpServer.handler failure_prefix];
    unfold search_code, search_commits, search_diffs, search_github_repos,
           effectiveUrl, effectiveToken, bind, process_env, ret, try_catch,
           executeSourcegraphSearch, axios_post, search_request; cbn;
    rewrite Hu, Ht; cbn; rewrite Hune, Htne; cbn;
    (destruct (answer _) as [response|e]; cbn; [|reflexivity]);
    unfold McpServer.render, bind, settle, ret;
    (destruct (prop response "errors") as [errors|e]; cbn; [|reflexivity]);
    (destruct (js_truthy errors); cbn; [reflexivity|]);
    (destruct (prop response "data") as [data|e]; cbn; [|reflexivity]);
    (destruct (prop data "search") as [found|e]; cbn; [|reflexivity]);
    (destruct (prop found "results") as [results|e]; cbn; [|reflexivity]);
    now destruct (formatSearchResults _ _ _).
Qed.

(** X8. With credentials in effect, each of [search-code],
    [search-commits], [search-diffs] and [search-github-repos] sends exactly
    one request: a POST to [<url>/.api/graphql] with the authorization
    [token <token>], the query it built, and the document of its search
    type.  For [search-code] and [search-github-repos] the document follows
    the [type] parameter, whatever [type:] clause the query text carries. *)
Theorem direct_search_sends_one_request
  (call : ToolCall) (doc : GraphqlDocument) (q label : string)
  (w : World) (url token : string) :
  search_arguments call = Some (doc, q, label) ->
  url_now loaded w = Some url -> url <> "" ->
  token_now loaded w = Some token -> token <> "" ->
  requests (snd (handler call w))
  = (requests w
     ++ [SourcegraphPost (url ++ "/.api/graphql") ("token " ++ token) doc (Some q)])%list /\
  env (snd (handler call w)) = env w.
Proof.
  intros Hargs Hu Hune Ht Htne.
  now rewrite (direct_tool_run call doc q label w url token Hargs Hu Hune Ht Htne).
Qed.

(** X9. When the request of a direct search tool fails, the tool answers
    with [isError: true] and a text made of its own prefix followed by the
    message of the error, or by [Unknown error] when the message is
    empty. *)
Theorem direct_search_reports_network_failure
  (call : ToolCall) (doc : GraphqlDocument) (q label : string)
  (w : World) (url token : string) (e : JsError) :
  search_arguments call = Some (doc, q, label) ->
  url_now loaded w = Some url -> url <> "" ->
  token_now loaded w = Some token -> token <> "" ->
  answer (search_request url token doc q) = Thrown e ->
  fst (handler call w)
  = Returned (error_text (failure_prefix call ++ message_or e "Unknown error")).
Proof.
  intros Hargs Hu Hune Ht Htne Ha.
  now rewrite (direct_tool_run call doc q label w url token Hargs Hu Hune Ht Htne), Ha.
Qed.

(** X10. When the search platform answers with a truthy [errors] member,
    a direct search tool answers with [isError: true] and the serialized
    errors; the formatter is not consulted. *)
Theorem direct_search_reports_upstream_errors
  (call : ToolCall) (doc : GraphqlDocument) (q label : string)
  (w : World) (url token : string) (response errors : JsValue) :
  search_arguments call = Some (doc, q, label) ->
  url_now loaded w = Some url -> url <> "" ->
  token_now loaded w = Some token -> token <> "" ->
  answer (search_request url token doc q) = Returned response ->
  prop response "errors" = Returned errors ->
  js_truthy errors = true ->
  fst (handler call w)
  = Returned (error_text ("Sourcegraph API Error: " ++ JSON_stringify errors)).
Proof.
  intros Hargs Hu Hune Ht Htne Ha He Htr.
  rewrite (direct_tool_run call doc q label w url token Hargs Hu Hune Ht Htne), Ha.
  unfold McpServer.render, bind, settle, ret. cbn. rewrite He. cbn. now rewrite Htr.
Qed.

(** X11. When the answer carries no errors and has [data.search.results],
    the text of a direct search tool is what the formatter returns for
    those results, the built query and the type label, without [isError];
    if the formatter throws, the tool reports that error under its
    prefix. *)
Theorem direct_search_formats_results
  (call : ToolCall) (doc : GraphqlDocument) (q label : string)
  (w : World) (url token : string) (fields : list (string * JsValue))
  (data found : list (string * JsValue)) :
  search_arguments call = Some (doc, q, label) ->
  url_now loaded w = Some url -> url <> "" ->
  token_now loaded w = Some token -> token <> "" ->
  answer (search_request url token doc q) = Returned (JObject fields) ->
  js_truthy (field "errors" fields) = false ->
  field "data" fields = JObject data ->
  field "search" data = JObject found ->
  fst (handler call w)
  = match formatSearchResults (field "results" found) (JString q) label with
    | Returned text => Returned (ok_text text)
    | Thrown e =>
        Returned (error_text (failure_prefix call ++ message_or e "Unknown error"))
    end.
Proof.
  intros Hargs Hu Hune Ht Htne Ha He Hd Hs.
  rewrite (direct_tool_run call doc q label w url token Hargs Hu Hune Ht Htne), Ha.
  unfold McpServer.render, bind, settle, ret. cbn. rewrite He. cbn. rewrite Hd. cbn.
  rewrite Hs. cbn. now destruct (formatSearchResults _ _ _).
Qed.

(** X12. A body without a usable [data] member is reported, not thrown:
    when the answer has neither errors nor [data], a direct search tool
    answers with [isError: true] and the message of the [TypeError] raised
    by reading [search] off [undefined]. *)
Theorem direct_search_reports_missing_data
  (call : ToolCall) (doc : GraphqlDocument) (q label : string)
  (w : World) (url token : string) (fields : list (string * JsValue)) :
  search_arguments call = Some (doc, q, label) ->
  url_now loaded w = Some url -> url <> "" ->
  token_now loaded w = Some token -> token <> "" ->
  answer (search_request url token doc q) = Returned (JObject fields) ->
  js_truthy (field "errors" fields) = false ->
  field "data" fields = JUndefined ->
  fst (handler call w)
  = Returned (error_text (failure_prefix call
                          ++ "Cannot read properties of undefined (reading 'search')")).
Proof.
  intros Hargs Hu Hune Ht Htne Ha He Hd.
  rewrite (direct_tool_run call doc q label w url token Hargs Hu Hune Ht Htne), Ha.
  unfold McpServer.render, bind, settle, ret. cbn. rewrite He. cbn. now rewrite Hd.
Qed.

(** X13. [echo], [debug], [nl-search-help] and [deep-code-researcher] send
    no request, leave the environment alone and never flag an error. *)
Theorem local_tools_stay_local (call : ToolCall) (w : World) :
  is_local_tool call = true ->
  snd (handler call w) = w /\
  exists text, fst (handler call w) = Returned (ok_text text).
Proof.
  destruct call; try discriminate; intros _; split; try reflexivity;
    eexists; reflexivity.
Qed.

(** X14. [test-connection] looks at the environment as it is when the tool
    is invoked and ignores what was captured at load time.  If the URL or
    the token is then missing or empty it answers with the configuration
    error and sends nothing; otherwise it sends one probe to
    [<url>/.api/graphql] with those values. *)
Theorem test_connection_reads_current_env (w : World) :
  (truthy (SOURCEGRAPH_URL (env w)) = false \/
   truthy (SOURCEGRAPH_TOKEN (env w)) = false ->
   handler TestConnection w = (Returned not_configured, w)) /\
  (forall url token,
      SOURCEGRAPH_URL (env w) = Some url -> url <> "" ->
      SOURCEGRAPH_TOKEN (env w) = Some token -> token <> "" ->
      requests (snd (handler TestConnection w))
      = (requests w
         ++ [SourcegraphPost (url ++ "/.api/graphql") ("token " ++ token)
                             CurrentUser None])%list).
Proof.
  split.
  - intros Hg. cbn [McpServer.handler].
    unfold test_connection, try_catch, bind, process_env, ret; cbn.
    destruct Hg as [-> | ->]; cbn; [reflexivity|].
    now rewrite orb_true_r.
  - intros url token Hu Hune Ht Htne. apply String.eqb_neq in Hune, Htne.
    cbn [McpServer.handler].
    unfold test_connection, try_catch, bind, process_env, ret, axios_post, settle; cbn.
    rewrite Hu, Ht. cbn. rewrite Hune, Htne. cbn.
    destruct (answer _) as [data|e]; cbn; [|reflexivity].
    destruct (prop data "errors") as [errors|e]; cbn; [|reflexivity].
    destruct (js_truthy errors); cbn; [reflexivity|].
    destruct (prop data "data") as [inner|e]; cbn; reflexivity.
Qed.

End WithHost.

Lemma direct_search_sends_one_request_witness :
  let now := mkEnv (Some "https://sg.example") (Some "s3cr3t") None None None None None in
  let offline := fun _ : Request => Thrown (mkError "ECONNREFUSED") in
  let format := fun (_ _ : JsValue) (_ : string) => Returned "" in
  requests (snd (handler now offline format (fun _ => "") (fun _ => "") ""
                         (SearchCode "type:commit fix" file) (mkWorld now [])))
  = [SourcegraphPost "https://sg.example/.api/graphql" "token s3cr3t" FileSearch
                     (Some "type:commit fix count:20")].
Proof.
  intros now offline format.
  apply (direct_search_sends_one_request now offline format (fun _ => "") (fun _ => "") ""
           (SearchCode "type:commit fix" file) FileSearch "type:commit fix count:20" "file"
           (mkWorld now []) "https://sg.example" "s3cr3t");
    first [reflexivity | discriminate].
Defined.

Lemma direct_search_reports_network_failure_witness :
  let now := mkEnv (Some "https://sg.example") (Some "s3cr3t") None None None None None in
  let offline := fun _ : Request => Thrown (mkError "") in
  let format := fun (_ _ : JsValue) (_ : string) => Returned "" in
  fst (handler now offline format (fun _ => "") (fun _ => "") ""
               (SearchDiffs (Some "fix") None None) (mkWorld now []))
  = Returned (error_text "Error searching Sourcegraph diffs: Unknown error").
Proof.
  intros now offline format.
  apply (direct_search_reports_network_failure now offline format (fun _ => "")
           (fun _ => "") "" (SearchDiffs (Some "fix") None None) DiffSearch
           "type:diff fix count:20" "diff" (mkWorld now []) "https://sg.example" "s3cr3t"
           (mkError ""));
    first [reflexivity | discriminate].
Defined.

Lemma direct_search_reports_upstream_errors_witness :
  let now := mkEnv (Some "https://sg.example") (Some "s3cr3t") None None None None None in
  let errors := JArray [JObject [("message", JString "bad query")]] in
  let answer := fun _ : Request => Returned (JObject [("errors", errors)]) in
  let format := fun (_ _ : JsValue) (_ : string) => Returned "" in
  fst (handler now answer format (fun _ => "[...]") (fun _ => "") ""
               (SearchCommits None (Some "fix") None) (mkWorld now []))
  = Returned (error_text "Sourcegraph API Error: [...]").
Proof.
  intros now errors answer format.
  apply (direct_search_reports_upstream_errors now answer format (fun _ => "[...]")
           (fun _ => "") "" (SearchCommits None (Some "fix") None) CommitSearch
           "type:commit message:fix count:20" "commit" (mkWorld now [])
           "https://sg.example" "s3cr3t" (JObject [("errors", errors)]) errors);
    first [reflexivity | discriminate].
Defined.

Lemma direct_search_formats_results_witness :
  let now := mkEnv (Some "https://sg.example") (Some "s3cr3t") None None None None None in
  let found := [("results", JObject [("matchCount", JNumber 0)])] in
  let data := [("search", JObject found)] in
  let answer := fun _ : Request => Returned (JObject [("data", JObject data)]) in
  let format := fun (_ q : JsValue) (t : string) => Returned (display q ++ "/" ++ t) in
  fst (handler now answer format (fun _ => "") (fun _ => "") ""
               (SearchGithubRepos "auth" "a/b" diff) (mkWorld now []))
  = Returned (ok_text "auth repo:^github\.com/a/b$ type:diff count:20/diff").
Proof.
  intros now found data answer format.
  apply (direct_search_formats_results now answer format (fun _ => "") (fun _ => "") ""
           (SearchGithubRepos "auth" "a/b" diff) DiffSearch
           "auth repo:^github\.com/a/b$ type:diff count:20" "diff" (mkWorld now [])
           "https://sg.example" "s3cr3t" [("data", JObject data)] data found);
    first [reflexivity | discriminate].
Defined.

Lemma direct_search_reports_missing_data_witness :
  let now := mkEnv (Some "https://sg.example") (Some "s3cr3t") None None None None None in
  let answer := fun _ : Request => Returned (JObject []) in
  let format := fun (_ _ : JsValue) (_ : string) => Returned "" in
  fst (handler now answer format (fun _ => "") (fun _ => "") ""
               (SearchCode "foo" file) (mkWorld now []))
  = Returned (error_text
                "Error searching Sourcegraph: Cannot read properties of undefined (reading 'search')").
Proof.
  intros now answer format.
  apply (direct_search_reports_missing_data now answer format (fun _ => "") (fun _ => "") ""
           (SearchCode "foo" file) FileSearch "foo type:file count:20" "file"
           (mkWorld now []) "https://sg.example" "s3cr3t" []);
    first [reflexivity | discriminate].
Defined.

Lemma local_tools_stay_local_witness :
  let now := mkEnv None None None None None None None in
  let offline := fun _ : Request => Thrown (mkError "ECONNREFUSED") in
  let format := fun (_ _ : JsValue) (_ : string) => Returned "" in
  snd (handler now offline format (fun _ => "") (fun _ => "") "" (Echo "world")
               (mkWorld now []))
  = mkWorld now [].
Proof.
  intros now offline format.
  exact (proj1 (local_tools_stay_local now offline format (fun _ => "") (fun _ => "") ""
                  (Echo "world") (mkWorld now []) eq_refl)).
Defined.

Lemma test_connection_reads_current_env_witness :
  let loaded := mkEnv (Some "https://sg.example") (Some "s3cr3t") None None None None None in
  let now := mkEnv None None None None None None None in
  let later := mkEnv (Some "https://other.example") (Some "t0k") None None None None None in
  let offline := fun _ : Request => Thrown (mkError "ECONNREFUSED") in
  let format := fun (_ _ : JsValue) (_ : string) => Returned "" in
  handler loaded offline format (fun _ => "") (fun _ => "") "" TestConnection
          (mkWorld now [])
  = (Returned not_configured, mkWorld now []) /\
  requests (snd (handler loaded offline format (fun _ => "") (fun _ => "") ""
                         TestConnection (mkWorld later [])))
  = [SourcegraphPost "https://other.example/.api/graphql" "token t0k" CurrentUser None].
Proof.
  intros loaded now later offline format. split.
  - apply (proj1 (test_connection_reads_current_env loaded offline format (fun _ => "")
                    (fun _ => "") "" (mkWorld now []))).
    left. reflexivity.
  - apply (proj2 (test_connection_reads_current_env loaded offline format (fun _ => "")
                    (fun _ => "") "" (mkWorld later []))
             "https://other.example" "t0k");
      first [reflexivity | discriminate].
Defined.

(** *** The query builder of [search-code], continued *)

Lemma prefix_app n s t : String.prefix n s = true -> String.prefix n (s ++ t) = true.
Proof.
  revert s. induction n as [|a n IH]; intros s.
  - intros _. now destruct (s ++ t).
  - destruct s as [|b s]; cbn; [discriminate|].
    destruct (ascii_dec a b); [apply IH | discriminate].
Qed.

Lemma includes_app_l s t n : Js.includes s n = true -> Js.includes (s ++ t) n = true.
Proof.
  unfold Js.includes. induction s as [|c s IH].
  - destruct n; cbn; [|discriminate]. intros _. now destruct t.
  - change (String c s ++ t) with (String c (s ++ t)). cbn [Js.includes_from].
    destruct (String.prefix n (String c s)) eqn:Hp.
    + intros _. change (String c (s ++ t)) with (String c s ++ t).
      now rewrite (prefix_app _ _ t Hp).
    + intros H. destruct (String.prefix n (String c (s ++ t))); [reflexivity | auto].
Qed.

Lemma includes_app_r s t n : Js.includes t n = true -> Js.includes (s ++ t) n = true.
Proof.
  unfold Js.includes. intros H. induction s as [|c s IH]; [exact H|].
  change (String c s ++ t) with (String c (s ++ t)). cbn [Js.includes_from].
  now destruct (String.prefix n (String c (s ++ t))).
Qed.

(** X15. The query built by [search-code] always contains a [type:] and a
    [count:] directive, and giving a built query back to the builder, with
    any type, returns it unchanged. *)
Theorem search_code_query_stable (query : string) (t t' : SearchType) :
  Js.includes (search_code_query query t) "type:" = true /\
  Js.includes (search_code_query query t) "count:" = true /\
  search_code_query (search_code_query query t) t' = search_code_query query t.
Proof.
  assert (Ht : Js.includes (search_code_query query t) "type:" = true).
  { unfold search_code_query.
    destruct (Js.includes query "type:") eqn:H1.
    - destruct (Js.includes query "count:"); [exact H1 | now apply includes_app_l].
    - assert (H2 : Js.includes (query ++ " type:" ++ type_name t) "type:" = true).
      { apply includes_app_r. now destruct t. }
      destruct (Js.includes (query ++ " type:" ++ type_name t) "count:");
        [exact H2 | now apply includes_app_l]. }
  assert (Hc : Js.includes (search_code_query query t) "count:" = true).
  { unfold search_code_query.
    destruct (Js.includes query "type:").
    - destruct (Js.includes query "count:") eqn:H2; [exact H2|].
      now apply includes_app_r.
    - destruct (Js.includes (query ++ " type:" ++ type_name t) "count:") eqn:H2;
        [exact H2|]. now apply includes_app_r. }
  repeat split; try assumption.
  unfold search_code_query at 1. now rewrite Ht, Hc.
Qed.

End McpServerMore.

(* ===================================================================== *)
(** ** More about the natural-language path *)
(* ===================================================================== *)

Module TranslatorMore.
Import Runtime Formatter McpServer EffFacts McpServerFacts.
Local Open Scope eff_scope.

Ltac split_match :=
  match goal with
  | |- context [match ?x with _ => _ end] => destruct x eqn:?
  | |- context [if ?x then _ else _] => destruct x eqn:?
  end.

Section WithHost.
Variable loaded : Env.
Variable answer : Request -> Outcome JsValue.

Local Abbreviation convert := (convertQueryToSourcegraphSyntax loaded answer).
Local Abbreviation analyze := (analyzeQuery loaded answer).

Lemma analyze_of_convert q w :
  analyze q w =
  match convert q w with
  | (Returned s, w') => (Returned (parseSourcegraphQuery s q), w')
  | (Thrown _, w') => (Returned (parseWithRules q), w')
  end.
Proof.
  unfold analyzeQuery, try_catch, bind, ret.
  now destruct (convert q w) as [[s|e] w'].
Qed.

(** X16. Without an LLM configuration the translator stays local: when
    [LLM_PROVIDER] is unset or empty at call time, or neither API key was
    set at load time, [convertQueryToSourcegraphSyntax] returns its input
    unchanged and sends nothing, and [analyzeQuery] returns the parse of the
    input itself. *)
Theorem unconfigured_llm_passes_query_through (q : string) (w : World) :
  truthy (LLM_PROVIDER (env w)) = false \/
  (truthy (openAiKey loaded) = false /\ truthy (anthropicKey loaded) = false) ->
  convert q w = (Returned q, w) /\
  analyze q w = (Returned (parseSourcegraphQuery q q), w).
Proof.
  intros H.
  assert (Hc : convert q w = (Returned q, w)).
  { unfold convertQueryToSourcegraphSyntax, bind, process_env, ret. cbn.
    destruct H as [-> | [-> ->]]; cbn; [reflexivity|]. now rewrite orb_true_r. }
  split; [exact Hc|]. now rewrite analyze_of_convert, Hc.
Qed.

(** X17. Configuration errors of the provider are raised before anything
    is sent.  With [LLM_PROVIDER] set at call time and an API key of the
    other provider present: the OpenAI path without its key throws
    [OPENAI_API_KEY is not set], the Anthropic path without its key throws
    [ANTHROPIC_API_KEY is not set], and any other provider name throws
    [Unsupported LLM provider]; in each case no request is sent and
    [analyzeQuery] answers with the rule-based parse. *)
Theorem provider_errors_precede_network (q : string) (w : World) :
  truthy (LLM_PROVIDER (env w)) = true ->
  (provider loaded = "openai" ->
   truthy (openAiKey loaded) = false -> truthy (anthropicKey loaded) = true ->
   convert q w = (Thrown (mkError "OPENAI_API_KEY is not set"), w) /\
   analyze q w = (Returned (parseWithRules q), w)) /\
  (provider loaded = "anthropic" ->
   truthy (anthropicKey loaded) = false -> truthy (openAiKey loaded) = true ->
   convert q w = (Thrown (mkError "ANTHROPIC_API_KEY is not set"), w) /\
   analyze q w = (Returned (parseWithRules q), w)) /\
  (provider loaded <> "" -> provider loaded <> "openai" -> provider loaded <> "anthropic" ->
   truthy (openAiKey loaded) = true \/ truthy (anthropicKey loaded) = true ->
   convert q w
   = (Thrown (mkError ("Unsupported LLM provider: " ++ provider loaded)), w) /\
   analyze q w = (Returned (parseWithRules q), w)).
Proof.
  intros Hp.
  assert (Hfall : forall e, convert q w = (Thrown e, w) ->
                            convert q w = (Thrown e, w) /\
                            analyze q w = (Returned (parseWithRules q), w)).
  { intros e Hc. split; [exact Hc|]. now rewrite analyze_of_convert, Hc. }
  split; [|split].
  - intros Hprov Hopen Hanth. apply Hfall.
    unfold convertQueryToSourcegraphSyntax, bind, process_env, ret; cbn; rewrite Hp; cbn.
    rewrite Hopen, Hanth, Hprov. cbn. unfold convertQueryWithOpenAI. now rewrite Hopen.
  - intros Hprov Hanth Hopen. apply Hfall.
    unfold convertQueryToSourcegraphSyntax, bind, process_env, ret; cbn; rewrite Hp; cbn.
    rewrite Hopen, Hanth, Hprov. cbn. unfold convertQueryWithAnthropic. now rewrite Hanth.
  - intros Hne Hno Hna Hkey. apply Hfall.
    unfold convertQueryToSourcegraphSyntax, bind, process_env, ret; cbn; rewrite Hp; cbn.
    apply String.eqb_neq in Hne, Hno, Hna. rewrite Hne, Hno, Hna. cbn.
    destruct Hkey as [-> | ->]; cbn; [reflexivity|]. now rewrite andb_false_r.
Qed.

Lemma convert_requests q w :
  exists extra,
    requests (snd (convert q w)) = (requests w ++ extra)%list /\
    env (snd (convert q w)) = env w /\
    length extra <= 1 /\
    forallb (fun r => negb (to_search_platform r)) extra = true.
Proof.
  destruct w as [e rs].
  unfold convertQueryToSourcegraphSyntax, convertQueryWithOpenAI,
         convertQueryWithAnthropic, bind, process_env, ret, throw, settle, axios_post.
  cbn.
  repeat (split_match; cbn);
    first [ exists []; rewrite app_nil_r; repeat split; cbn; lia
          | eexists [_]; repeat split; cbn; lia ].
Qed.

Lemma analyze_requests (q : string) (w : World) :
  exists extra,
    requests (snd (analyze q w)) = (requests w ++ extra)%list /\
    env (snd (analyze q w)) = env w /\
    length extra <= 1 /\
    forallb (fun r => negb (to_search_platform r)) extra = true.
Proof.
  destruct (convert_requests q w) as [extra H]. exists extra.
  rewrite analyze_of_convert. now destruct (convert q w) as [[s|e] w'].
Qed.

(** X18. Translating a query sends at most one request, and never one to
    the search platform: whatever [analyzeQuery] sends goes to the LLM
    provider, and the environment is left as it was. *)
Theorem translator_talks_to_llm_only (q : string) (w : World) :
  exists extra,
    requests (snd (analyze q w)) = (requests w ++ extra)%list /\
    env (snd (analyze q w)) = env w /\
    length extra <= 1 /\
    forallb (fun r => negb (to_search_platform r)) extra = true.
Proof. exact (analyze_requests q w). Qed.

Variable formatSearchResults : JsValue -> JsValue -> string -> Outcome string.
Variable JSON_stringify : JsValue -> string.

(** X19. [naturalLanguageSearch] does not wait for the analysis it starts.
    Whatever the natural-language input, the one request it sends to the
    search platform asks the file-search document for the text
    [undefined type:file count:20]; the requests before it, if any, went to
    the LLM provider. *)
Theorem naturalLanguageSearch_ignores_analysis (q url token : string) (w : World) :
  exists llm,
    requests (snd (naturalLanguageSearch loaded answer formatSearchResults JSON_stringify
                                         q url token w))
    = (requests w ++ llm
       ++ [SourcegraphPost (url ++ "/.api/graphql") ("token " ++ token) FileSearch
                           (Some "undefined type:file count:20")])%list /\
    forallb (fun r => negb (to_search_platform r)) llm = true.
Proof.
  destruct (analyze_requests q w) as [llm [Hr [_ [_ Hllm]]]].
  exists llm. split; [|exact Hllm].
  unfold naturalLanguageSearch, try_catch, bind, floating, ret, settle, axios_post.
  cbn. rewrite Hr, <- app_assoc.
  destruct (answer _) as [data|e]; cbn; [|reflexivity].
  destruct (prop data "errors") as [errors|e]; cbn; [|reflexivity].
  destruct (js_truthy errors); cbn; [reflexivity|].
  destruct (prop data "data") as [inner|e]; cbn; [|reflexivity].
  destruct (prop inner "search") as [found|e]; cbn; [|reflexivity].
  destruct (prop found "results") as [results|e]; cbn; [|reflexivity].
  now destruct (formatSearchResults _ _ _).
Qed.

(** X20. [test-nl-search] does not wait for the analysis either: reading
    [repos.length] off the promise throws, so for every input the tool
    answers with [isError: true] and the message of that [TypeError], and
    it never contacts the search platform. *)
Theorem test_nl_search_always_fails (q : string) (w : World) :
  fst (test_nl_search loaded answer q w)
  = Returned (error_text
                "Error processing natural language test: Cannot read properties of undefined (reading 'length')") /\
  snd (test_nl_search loaded answer q w) = snd (analyze q w).
Proof. split; reflexivity. Qed.

End WithHost.

Lemma unconfigured_llm_passes_query_through_witness :
  let loaded := mkEnv None None (Some "openai") (Some "sk-test") None None None in
  let now := mkEnv None None None None None None None in
  let offline := fun _ : Request => Thrown (mkError "ECONNRESET") in
  analyzeQuery loaded offline "auth type:commit" (mkWorld now [])
  = (Returned (parseSourcegraphQuery "auth type:commit" "auth type:commit"),
     mkWorld now []).
Proof.
  intros loaded now offline.
  apply (proj2 (unconfigured_llm_passes_query_through loaded offline "auth type:commit"
                  (mkWorld now []) (or_introl eq_refl))).
Defined.

Lemma provider_errors_precede_network_witness :
  let cohere := mkEnv None None (Some "cohere") (Some "sk-test") None None None in
  let anthropic := mkEnv None None (Some "anthropic") (Some "sk-test") None None None in
  let openai := mkEnv None None (Some "openai") None None (Some "ak-test") None in
  let offline := fun _ : Request => Thrown (mkError "ECONNRESET") in
  convertQueryToSourcegraphSyntax openai offline "find x" (mkWorld openai [])
  = (Thrown (mkError "OPENAI_API_KEY is not set"), mkWorld openai []) /\
  convertQueryToSourcegraphSyntax anthropic offline "find x" (mkWorld anthropic [])
  = (Thrown (mkError "ANTHROPIC_API_KEY is not set"), mkWorld anthropic []) /\
  convertQueryToSourcegraphSyntax cohere offline "find x" (mkWorld cohere [])
  = (Thrown (mkError "Unsupported LLM provider: cohere"), mkWorld cohere []).
Proof.
  intros cohere anthropic openai offline. repeat apply conj.
  - apply (proj1 (provider_errors_precede_network openai offline "find x"
                    (mkWorld openai []) eq_refl)); reflexivity.
  - apply (proj1 (proj2 (provider_errors_precede_network anthropic offline "find x"
                           (mkWorld anthropic []) eq_refl))); reflexivity.
  - apply (proj2 (proj2 (provider_errors_precede_network cohere offline "find x"
                           (mkWorld cohere []) eq_refl)));
      first [discriminate | left; reflexivity].
Defined.

End TranslatorMore.

(* ===================================================================== *)
(** ** Whitespace in parsed queries *)
(* ===================================================================== *)

Module FormatterMore.
Import Js JsText Formatter.
Local Open Scope list_scope.

Lemma trim_start_length l : length (trim_start l) <= length l.
Proof. induction l as [|x l IH]; cbn; [lia|]. destruct (is_space x); cbn; lia. Qed.

Lemma trim_start_suffix l : exists sp, l = (sp ++ trim_start l)%list.
Proof.
  induction l as [|x l [sp IH]]; [now exists []|]. cbn.
  destruct (is_space x).
  - exists (x :: sp). cbn. now rewrite <- IH.
  - now exists [].
Qed.

Lemma clean_head_trim_start l : clean_head (trim_start l).
Proof.
  induction l as [|x l IH]; cbn; [exact I|].
  destruct (is_space x) eqn:E; [exact IH | exact E].
Qed.

Lemma trim_start_clean l : clean_head l -> trim_start l = l.
Proof. destruct l as [|x l]; cbn; [reflexivity|]. now intros ->. Qed.

Lemma clean_head_prefix (l1 l2 : chars) :
  clean_head (l1 ++ l2) -> l1 <> [] -> clean_head l1.
Proof. destruct l1; cbn; [congruence | auto]. Qed.

(** [trim] applied twice is [trim]. *)
Lemma trim_chars_idem l : trim_chars (trim_chars l) = trim_chars l.
Proof.
  unfold trim_chars.
  set (t := trim_start l). set (u := trim_start (rev t)).
  assert (Hu : clean_head u) by apply clean_head_trim_start.
  assert (Hr : clean_head (rev u)).
  { destruct (trim_start_suffix (rev t)) as [sp Hsp]. fold u in Hsp.
    assert (Ht : t = (rev u ++ rev sp)%list).
    { rewrite <- (rev_involutive t), Hsp. apply rev_app_distr. }
    destruct (rev u) as [|x r] eqn:E; [exact I|].
    apply (clean_head_prefix (x :: r) (rev sp)); [|discriminate].
    rewrite <- Ht. apply clean_head_trim_start. }
  rewrite (trim_start_clean _ Hr), rev_involutive. now rewrite (trim_start_clean _ Hu).
Qed.

Section Star.
Context {R : Type} (k : Cursor -> option R) (g : chars -> list (nat * chars) -> R).
Hypothesis Hk : forall c, k c = Some (g (ahead c) (captures c)).

(** A run of whitespace is consumed whole when the rest of the pattern
    cannot fail. *)
Lemma star_class_spaces l b caps :
  star_class is_space b l caps k = Some (g (trim_start l) caps).
Proof.
  revert b. induction l as [|x l IH]; intros b; cbn.
  - now rewrite Hk.
  - destruct (is_space x).
    + now rewrite IH.
    + now rewrite Hk.
Qed.

End Star.

Lemma match_here_spaces b l :
  match_here re_spaces b l =
  match l with
  | x :: l' =>
      if is_space x
      then Some (x :: firstn (length l' - length (trim_start l')) l', trim_start l', [])
      else None
  | [] => None
  end.
Proof.
  unfold match_here, re_spaces. cbn [match_at ahead captures].
  destruct l as [|x l']; [reflexivity|].
  destruct (is_space x); [|reflexivity].
  rewrite (star_class_spaces _
             (fun rest caps =>
                (firstn (length (x :: l') - length rest) (x :: l'), rest, caps)))
    by reflexivity.
  pose proof (trim_start_length l') as Hlen.
  cbn [length].
  replace (S (length l') - length (trim_start l'))
    with (S (length l' - length (trim_start l'))) by lia.
  reflexivity.
Qed.

Lemma squeeze_after_run l : squeeze true l = squeeze false (trim_start l).
Proof.
  induction l as [|x l IH]; cbn; [reflexivity|].
  destruct (is_space x) eqn:E; [exact IH|]. cbn. now rewrite E.
Qed.

Lemma scan_spaces fuel : forall l b,
  length l < fuel ->
  flat_map (fun piece : chars * option (chars * list (nat * chars)) =>
              match piece with
              | (_, Some _) => of_string " "
              | (kept, None) => kept
              end)
           (scan fuel re_spaces b l)
  = squeeze false l.
Proof.
  induction fuel as [|fuel IH]; intros l b Hlen; [lia|].
  cbn [scan]. rewrite match_here_spaces.
  destruct l as [|x l']; [reflexivity|]. cbn [squeeze].
  destruct (is_space x).
  - cbn [flat_map]. rewrite IH.
    + now rewrite squeeze_after_run.
    + pose proof (trim_start_length l'). cbn in Hlen. lia.
  - cbn [flat_map]. rewrite IH; [reflexivity|]. cbn in Hlen. lia.
Qed.

(** [s.replace(/\s+/g, ' ')], character by character. *)
Lemma replace_all_spaces s :
  replace_all re_spaces " " s = to_string (squeeze false (of_string s)).
Proof.
  unfold replace_all, scan_all. f_equal. apply scan_spaces. lia.
Qed.

Lemma squeeze_length b l : length (squeeze b l) <= length l.
Proof.
  revert b. induction l as [|x l IH]; intros b; cbn; [lia|].
  destruct (is_space x); [destruct b|]; cbn;
    try (specialize (IH true); lia); specialize (IH false); lia.
Qed.

Lemma squeeze_app b l1 l2 :
  exists b', squeeze b (l1 ++ l2) = (squeeze b l1 ++ squeeze b' l2)%list.
Proof.
  revert b. induction l1 as [|x l1 IH]; intros b; [now exists b|].
  cbn. destruct (is_space x).
  - destruct (IH true) as [b' H]. exists b'. destruct b; cbn; now rewrite H.
  - destruct (IH false) as [b' H]. exists b'. cbn. now rewrite H.
Qed.

Lemma app_same_length {A} (a b c d : list A) :
  (a ++ b = c ++ d)%list -> length a = length c -> a = c /\ b = d.
Proof.
  revert c. induction a as [|x a IH]; intros [|y c]; cbn; try discriminate; auto.
  intros [= -> H] [= Hl]. destruct (IH c H Hl) as [-> ->]. auto.
Qed.

Lemma squeeze_fixed_clean l : squeeze true l = l -> squeeze false l = l.
Proof.
  destruct l as [|x l]; cbn; [reflexivity|].
  destruct (is_space x); [|auto].
  intros H. pose proof (squeeze_length true l) as Hl. rewrite H in Hl. cbn in Hl. lia.
Qed.

Lemma squeeze_fixed_parts b l1 l2 :
  squeeze b (l1 ++ l2) = (l1 ++ l2)%list ->
  squeeze b l1 = l1 /\ squeeze false l2 = l2.
Proof.
  intros H. destruct (squeeze_app b l1 l2) as [b' Happ]. rewrite Happ in H.
  pose proof (squeeze_length b l1) as Hl1. pose proof (squeeze_length b' l2) as Hl2.
  assert (Hlen : length (squeeze b l1) = length l1).
  { apply (f_equal (@length _)) in H. rewrite !length_app in H. lia. }
  destruct (app_same_length _ _ _ _ H Hlen) as [H1 H2]. split; [exact H1|].
  destruct b'; [now apply squeeze_fixed_clean | exact H2].
Qed.

Lemma squeeze_idem l :
  squeeze true (squeeze true l) = squeeze true l /\
  squeeze false (squeeze false l) = squeeze false l.
Proof.
  induction l as [|x l [IH1 IH2]]; cbn; [auto|].
  destruct (is_space x) eqn:E; cbn; rewrite ?E; cbn.
  - split; [exact IH1 | now rewrite IH1].
  - now rewrite IH2.
Qed.

(** The result of the clean-up is in normal form. *)
Lemma tidy_normal l :
  let o := trim_chars (squeeze false l) in
  trim_chars o = o /\ squeeze false o = o.
Proof.
  intros o. split; [apply trim_chars_idem|].
  subst o. unfold trim_chars.
  set (s := squeeze false l).
  assert (Hs : squeeze false s = s) by apply squeeze_idem.
  destruct (trim_start_suffix s) as [sp Hsp].
  rewrite Hsp in Hs. apply squeeze_fixed_parts in Hs as [_ Ht].
  set (t := trim_start s) in *.
  destruct (trim_start_suffix (rev t)) as [sp' Hsp'].
  assert (Hrev : t = (rev (trim_start (rev t)) ++ rev sp')%list).
  { apply (f_equal (@rev _)) in Hsp'.
    now rewrite rev_involutive, rev_app_distr in Hsp'. }
  rewrite Hrev in Ht. now apply squeeze_fixed_parts in Ht as [Hu _].
Qed.

Lemma cleaned_string_normal s :
  let r := trim (replace_all re_spaces " " s) in
  trim r = r /\ replace_all re_spaces " " r = r.
Proof.
  intros r. subst r. rewrite !replace_all_spaces. unfold trim, to_string, of_string.
  rewrite !list_ascii_of_string_of_list_ascii.
  destruct (tidy_normal (list_ascii_of_string s)) as [H1 H2].
  split; [now rewrite H1 | now rewrite H2].
Qed.

(** X21. The search terms that [parseWithRules] and [parseSourcegraphQuery]
    return are in normal form with respect to whitespace: they have no
    leading or trailing whitespace and every run of whitespace is a single
    blank, so trimming them or collapsing their whitespace again changes
    nothing. *)
Theorem parsed_query_is_normalised (query sourcegraphQuery originalQuery : string) :
  (let r := qa_query (parseWithRules query) in
   trim r = r /\ replace_all re_spaces " " r = r) /\
  (let r := qa_query (parseSourcegraphQuery sourcegraphQuery originalQuery) in
   trim r = r /\ replace_all re_spaces " " r = r).
Proof.
  split.
  - unfold parseWithRules. cbv zeta. cbn [qa_query]. apply cleaned_string_normal.
  - unfold parseSourcegraphQuery. cbv zeta.
    destruct (match_group re_type 1 sourcegraphQuery); cbn [qa_query];
      apply cleaned_string_normal.
Qed.

End FormatterMore.

(* ===================================================================== *)
(** ** Escaping markdown *)
(* ===================================================================== *)

Module MarkdownFacts.
Import Js Markdown.
Local Open Scope list_scope.

Lemma match_here_class p b l :
  match_here (Class p) b l =
  match l with
  | x :: l' => if p x then Some ([x], l', []) else None
  | [] => None
  end.
Proof.
  unfold match_here. cbn [match_at ahead captures].
  destruct l as [|x l']; [reflexivity|]. destruct (p x); [|reflexivity].
  cbn [ahead captures length].
  replace (S (length l') - length l') with 1 by lia. reflexivity.
Qed.

Lemma scan_class p by_ fuel : forall l b,
  length l < fuel ->
  flat_map (fun piece : chars * option (chars * list (nat * chars)) =>
              match piece with
              | (_, Some _) => of_string by_
              | (kept, None) => kept
              end)
           (scan fuel (Class p) b l)
  = flat_map (fun x => if p x then of_string by_ else [x]) l.
Proof.
  induction fuel as [|fuel IH]; intros l b Hlen; [lia|].
  cbn [scan]. rewrite match_here_class.
  destruct l as [|x l']; [reflexivity|]. cbn in Hlen. cbn [flat_map].
  destruct (p x); cbn [flat_map]; rewrite IH by lia; reflexivity.
Qed.

(** A global replacement of single characters works character by
    character. *)
Lemma replace_all_class p by_ s :
  replace_all (Class p) by_ s
  = to_string (flat_map (fun x => if p x then of_string by_ else [x]) (of_string s)).
Proof. unfold replace_all, scan_all. f_equal. apply scan_class. lia. Qed.

Lemma escape_passes x :
  flat_map (fun c => if is_char "`" c then of_string "\`" else [c])
    (flat_map (fun c => if is_char "~" c then of_string "\~" else [c])
       (flat_map (fun c => if is_char "_" c then of_string "\_" else [c])
          (if is_char "*" x then of_string "\*" else [x])))
  = escape_char x.
Proof.
  unfold escape_char, is_markdown_special, is_char.
  destruct (Ascii.eqb_spec "*" x) as [<-|H1]; [reflexivity|].
  cbn [flat_map app].
  destruct (Ascii.eqb_spec "_" x) as [<-|H2]; [reflexivity|].
  cbn [flat_map app].
  destruct (Ascii.eqb_spec "~" x) as [<-|H3]; [reflexivity|].
  cbn [flat_map app].
  destruct (Ascii.eqb_spec "`" x) as [<-|H4]; reflexivity.
Qed.

Lemma escapeMarkdown_chars text :
  escapeMarkdown text = to_string (flat_map escape_char (of_string text)).
Proof.
  unfold escapeMarkdown. rewrite !replace_all_class. unfold to_string, of_string.
  rewrite !list_ascii_of_string_of_list_ascii. f_equal.
  induction (list_ascii_of_string text) as [|x l IH]; [reflexivity|].
  cbn [flat_map]. rewrite !flat_map_app, IH. f_equal. apply escape_passes.
Qed.

Lemma to_string_app (a b : chars) : to_string (a ++ b) = (to_string a ++ to_string b)%string.
Proof.
  unfold to_string. induction a as [|x a IH]; cbn; [reflexivity | now rewrite IH].
Qed.

Lemma of_string_app (a b : string) : of_string (a ++ b)%string = of_string a ++ of_string b.
Proof.
  unfold of_string. induction a as [|x a IH]; cbn; [reflexivity | now rewrite IH].
Qed.

(** X22. [escapeMarkdown] works character by character: it puts one
    backslash before every [*], [_], [~] and backtick and leaves all other
    characters alone.  So it distributes over concatenation, it is the
    identity on text without these four characters, and the result is
    longer than the input by the number of such characters. *)
Theorem escapeMarkdown_characterwise (a b : string) :
  escapeMarkdown a = to_string (flat_map escape_char (of_string a)) /\
  escapeMarkdown (a ++ b) = (escapeMarkdown a ++ escapeMarkdown b)%string /\
  (forallb (fun c => negb (is_markdown_special c)) (of_string a) = true ->
   escapeMarkdown a = a) /\
  String.length (escapeMarkdown a)
  = String.length a + length (filter is_markdown_special (of_string a)).
Proof.
  repeat split.
  - apply escapeMarkdown_chars.
  - rewrite !escapeMarkdown_chars, of_string_app, flat_map_app. apply to_string_app.
  - intros H. rewrite escapeMarkdown_chars.
    rewrite <- (string_of_list_ascii_of_string a) at 2. unfold to_string, of_string in *.
    f_equal. induction (list_ascii_of_string a) as [|x l IH]; [reflexivity|].
    cbn in H. apply andb_prop in H as [Hx Hl]. cbn [flat_map]. unfold escape_char at 1.
    apply negb_true_iff in Hx. rewrite Hx. cbn. now rewrite IH.
  - rewrite escapeMarkdown_chars.
    rewrite <- (string_of_list_ascii_of_string a) at 2. unfold to_string, of_string.
    assert (Hlen : forall l, String.length (string_of_list_ascii l) = length l).
    { induction l as [|x l IH]; cbn; [reflexivity | now rewrite IH]. }
    rewrite !Hlen.
    induction (list_ascii_of_string a) as [|x l IH]; [reflexivity|].
    cbn [flat_map filter]. rewrite length_app, IH. unfold escape_char.
    destruct (is_markdown_special x); cbn; lia.
Qed.

Lemma escapeMarkdown_characterwise_witness : escapeMarkdown "plain text" = "plain text".
Proof.
  exact (proj1 (proj2 (proj2 (escapeMarkdown_characterwise "plain text" ""))) eq_refl).
Defined.

End MarkdownFacts.

(* ===================================================================== *)
(** ** The search service *)
(* ===================================================================== *)

Module SourcegraphServiceFacts.
Import Runtime McpServer SourcegraphService.
Local Open Scope eff_scope.

(** X23. [searchSourcegraph] checks the credentials in the environment as
    it is when it is called.  If the URL or the token is missing or empty
    it throws the configuration error and sends nothing.  Otherwise it
    sends exactly one request, to [<url>/.api/graphql] with that token, the
    query as given, and the document picked from the text of the query; it
    settles as the remote end answers, without inspecting the body. *)
Theorem searchSourcegraph_behaviour
  (answer : Request -> Outcome JsValue) (query : string) (w : World) :
  (truthy (SOURCEGRAPH_URL (env w)) = false \/
   truthy (SOURCEGRAPH_TOKEN (env w)) = false ->
   searchSourcegraph answer query w
   = (Thrown (mkError "Sourcegraph URL or token not configured. Please set SOURCEGRAPH_URL and SOURCEGRAPH_TOKEN environment variables."),
      w)) /\
  (forall url token,
      SOURCEGRAPH_URL (env w) = Some url -> url <> "" ->
      SOURCEGRAPH_TOKEN (env w) = Some token -> token <> "" ->
      let request :=
        SourcegraphPost (url ++ "/.api/graphql") ("token " ++ token)
                        (document_of_query query) (Some query) in
      searchSourcegraph answer query w
      = (answer request, mkWorld (env w) (requests w ++ [request])%list)).
Proof.
  split.
  - intros Hg.
    unfold searchSourcegraph, getSourcegraphConfig, bind, process_env, throw; cbn.
    destruct Hg as [-> | ->]; cbn; [reflexivity|]. now rewrite orb_true_r.
  - intros url token Hu Hune Ht Htne request. apply String.eqb_neq in Hune, Htne.
    unfold searchSourcegraph, getSourcegraphConfig, bind, process_env, ret,
           executeSourcegraphSearch, axios_post; cbn.
    rewrite Hu, Ht. cbn. rewrite Hune, Htne. reflexivity.
Qed.

Lemma searchSourcegraph_behaviour_witness :
  let now := mkEnv (Some "https://sg.example") (Some "s3cr3t") None None None None None in
  let unset := mkEnv (Some "https://sg.example") None None None None None None in
  let offline := fun _ : Request => Thrown (mkError "ECONNREFUSED") in
  fst (searchSourcegraph offline "x type:diff type:commit" (mkWorld unset []))
  = Thrown (mkError "Sourcegraph URL or token not configured. Please set SOURCEGRAPH_URL and SOURCEGRAPH_TOKEN environment variables.") /\
  snd (searchSourcegraph offline "x type:diff type:commit" (mkWorld now []))
  = mkWorld now [SourcegraphPost "https://sg.example/.api/graphql" "token s3cr3t"
                                 CommitSearch (Some "x type:diff type:commit")].
Proof.
  intros now unset offline. split.
  - rewrite (proj1 (searchSourcegraph_behaviour offline "x type:diff type:commit"
                      (mkWorld unset [])) (or_intror eq_refl)).
    reflexivity.
  - rewrite (proj2 (searchSourcegraph_behaviour offline "x type:diff type:commit"
                      (mkWorld now []))
               "https://sg.example" "s3cr3t" eq_refl ltac:(discriminate)
               eq_refl ltac:(discriminate)).
    reflexivity.
Defined.

End SourcegraphServiceFacts.

(* ===================================================================== *)
(** ** The compiled LLM service *)
(* ===================================================================== *)

Module DistLlmFacts.
Import Runtime Js JsText DistLlm EffFacts FormatterMore MarkdownFacts McpServerMore.
Local Open Scope eff_scope.

Lemma prefix_type_blank s t :
  blank_start t -> String.prefix "type:" (s ++ t) = String.prefix "type:" s.
Proof.
  intros Ht.
  assert (Hstop : forall a n, is_space a = false ->
                              String.prefix (String a n) t = false).
  { intros a n Ha. destruct t as [|c t]; [reflexivity|]. cbn.
    destruct (ascii_dec a c) as [<-|]; [|reflexivity]. cbn in Ht. congruence. }
  do 5 (destruct s as [|? s];
        [cbn [append]; rewrite Hstop by reflexivity; reflexivity|];
        cbn [append String.prefix]; destruct (ascii_dec _ _); [|reflexivity]).
  now destruct s, t.
Qed.

Lemma includes_blank_only sp :
  Forall (fun c => is_space c = true) sp -> includes (to_string sp) "type:" = false.
Proof.
  unfold includes, to_string. induction 1 as [|c sp Hc _ IH]; [reflexivity|].
  cbn [string_of_list_ascii includes_from String.prefix].
  destruct (ascii_dec "t" c) as [<-|]; [discriminate Hc | exact IH].
Qed.

Lemma includes_trim_start l :
  includes (to_string l) "type:" = true ->
  includes (to_string (trim_start l)) "type:" = true.
Proof.
  unfold includes, to_string. induction l as [|c l IH]; [auto|].
  cbn [trim_start]. destruct (is_space c) eqn:Hc; [|auto].
  cbn [string_of_list_ascii includes_from String.prefix].
  destruct (ascii_dec "t" c) as [<-|]; [discriminate Hc | exact IH].
Qed.

Lemma includes_without_tail u sp :
  Forall (fun c => is_space c = true) sp ->
  includes (to_string (u ++ sp)%list) "type:" = true ->
  includes (to_string u) "type:" = true.
Proof.
  intros Hsp. induction u as [|c u IH].
  - cbn [app]. now rewrite includes_blank_only.
  - unfold includes in *. unfold to_string in *.
    change (string_of_list_ascii ((c :: u) ++ sp))
      with (String c (string_of_list_ascii (u ++ sp))).
    change (string_of_list_ascii (c :: u)) with (String c (string_of_list_ascii u)).
    cbn [includes_from].
    assert (Hp : String.prefix "type:" (String c (string_of_list_ascii (u ++ sp)))
                 = String.prefix "type:" (String c (string_of_list_ascii u))).
    { pose proof (to_string_app (c :: u) sp) as Happ. unfold to_string in Happ.
      cbn [app string_of_list_ascii] in Happ. rewrite Happ.
      change (String c (string_of_list_ascii u ++ string_of_list_ascii sp))
        with (String c (string_of_list_ascii u) ++ string_of_list_ascii sp)%string.
      apply prefix_type_blank. destruct Hsp; cbn; auto. }
    rewrite Hp. destruct (String.prefix "type:" (String c (string_of_list_ascii u)));
      [reflexivity | exact IH].
Qed.

Lemma trim_start_blank_suffix l :
  exists sp, l = (sp ++ trim_start l)%list /\ Forall (fun c => is_space c = true) sp.
Proof.
  induction l as [|x l [sp [IH Hsp]]]; [now exists []|]. cbn.
  destruct (is_space x) eqn:E.
  - exists (x :: sp). split; [cbn; now rewrite <- IH | now constructor].
  - now exists [].
Qed.

(** Trimming cannot remove a [type:] clause. *)
Lemma includes_trim s : includes s "type:" = true -> includes (trim s) "type:" = true.
Proof.
  intros H. unfold trim, trim_chars.
  rewrite <- (string_of_list_ascii_of_string s) in H. fold (of_string s) in H.
  fold (to_string (of_string s)) in H.
  apply includes_trim_start in H. set (t := trim_start (of_string s)) in *.
  destruct (trim_start_blank_suffix (rev t)) as [sp [Hsp Hblank]].
  apply (f_equal (@rev _)) in Hsp. rewrite rev_involutive, rev_app_distr in Hsp.
  rewrite Hsp in H. apply includes_without_tail in H; [exact H|].
  now apply Forall_rev.
Qed.

Lemma fallback_includes_type (naturalQuery : string) :
  includes (fallbackQueryConversion naturalQuery) "type:" = true.
Proof.
  unfold fallbackQueryConversion.
  set (cleanedQuery := replace_all re_in_repo " repo:" _). cbv zeta.
  destruct (includes cleanedQuery "type:") eqn:Hc; cbn [negb].
  - now apply includes_trim.
  - now apply includes_app_r.
Qed.

Lemma fallback_nonempty (naturalQuery : string) :
  fallbackQueryConversion naturalQuery <> "".
Proof.
  intros E. pose proof (fallback_includes_type naturalQuery) as H.
  rewrite E in H. discriminate H.
Qed.

(** X24. The local fallback of the compiled service always produces a
    query with a [type:] clause, and so never the empty string: it keeps a
    clause that the cleaned input already has and appends [type:file]
    otherwise. *)
Theorem fallbackQueryConversion_is_typed (naturalQuery : string) :
  includes (fallbackQueryConversion naturalQuery) "type:" = true /\
  fallbackQueryConversion naturalQuery <> "".
Proof. split; [apply fallback_includes_type | apply fallback_nonempty]. Qed.

Section WithHost.
Variable loaded : Env.
Variable answer : Request -> Outcome JsValue.
Variable createOpenAIPrompt createAnthropicPrompt : string -> string.

Local Abbreviation convert :=
  (convertQueryToSourcegraphSyntax loaded answer createOpenAIPrompt createAnthropicPrompt).

Lemma partial_require_text t who :
  partial (fun s : string => s <> "") (require_text t who : Eff World string).
Proof.
  intros w s. unfold require_text. destruct t as [s'|]; [|discriminate].
  destruct (String.eqb_spec s' ""); [discriminate|]. now intros [= <-].
Qed.

(** X25. The compiled [convertQueryToSourcegraphSyntax] never throws and
    never returns the empty string: a completion is returned only when it
    is non-empty after trimming, and every failure, including a missing
    key, an unsupported provider, a failed request and an empty or
    malformed completion, ends in the local fallback. *)
Theorem dist_convert_total_nonempty (naturalQuery : string) (w : World) :
  exists s, fst (convert naturalQuery w) = Returned s /\ s <> "".
Proof.
  apply (total_try_catch (fun s : string => s <> "")).
  - cbv zeta. unfold convertWithOpenAI, convertWithAnthropic.
    repeat first
      [ apply partial_require_text
      | apply partial_throw
      | apply partial_if
      | apply partial_bind; intro ].
  - intros e. apply total_ret. apply fallback_nonempty.
Qed.

End WithHost.

End DistLlmFacts.

(* ===================================================================== *)
(** ** The query helper of the Express routes *)
(* ===================================================================== *)

Module SearchRoutesFacts.
Import Runtime Js JsText SearchRoutes FormatterMore MarkdownFacts DistLlmFacts.
Local Open Scope list_scope.

(** *** Searching for a pattern *)

Lemma last_of_cons x l b : last_of (x :: l) b = last_of l (Some x).
Proof.
  unfold last_of. cbn [rev]. destruct (rev l) as [|y r] eqn:E; reflexivity.
Qed.

Lemma search_from_unfold r pre b l :
  search_from r pre b l =
  match match_here r b l with
  | Some (text, rest, groups) => Some (mkMatch (rev pre) text rest groups)
  | None =>
      match l with
      | x :: l' => search_from r (x :: pre) (Some x) l'
      | [] => None
      end
  end.
Proof. destruct l; reflexivity. Qed.

(** A match somewhere makes the search succeed. *)
Lemma search_from_found r l2 : forall l1 pre b,
  match_here r (last_of l1 b) l2 <> None ->
  search_from r pre b (l1 ++ l2) <> None.
Proof.
  induction l1 as [|x l1 IH]; intros pre b H; rewrite search_from_unfold; cbn [app].
  - unfold last_of in H. cbn in H.
    destruct (match_here r b l2) as [[[? ?] ?]|]; [discriminate | contradiction].
  - destruct (match_here r b (x :: l1 ++ l2)) as [[[? ?] ?]|]; [discriminate|].
    apply IH. now rewrite last_of_cons in H.
Qed.

(** A successful search found a match somewhere. *)
Lemma search_from_split r : forall l pre b,
  search_from r pre b l <> None ->
  exists l1 l2, l = l1 ++ l2 /\ match_here r (last_of l1 b) l2 <> None.
Proof.
  induction l as [|x l IH]; intros pre b H; rewrite search_from_unfold in H.
  - exists [], []. split; [reflexivity|]. unfold last_of; cbn.
    destruct (match_here r b []); [discriminate | contradiction].
  - destruct (match_here r b (x :: l)) eqn:E.
    + exists [], (x :: l). split; [reflexivity|]. unfold last_of; cbn. now rewrite E.
    + destruct (IH _ _ H) as [l1 [l2 [-> Hm]]].
      exists (x :: l1), l2. split; [reflexivity|]. now rewrite last_of_cons.
Qed.

Lemma test_iff r s :
  test r s = true <->
  exists l1 l2, of_string s = l1 ++ l2 /\ match_here r (last_of l1 None) l2 <> None.
Proof.
  unfold test, search. split.
  - intros H. apply (search_from_split r _ [] None).
    destruct (search_from r [] None (of_string s)); [discriminate | discriminate H].
  - intros [l1 [l2 [-> Hm]]]. pose proof (search_from_found r l2 l1 [] None Hm) as H.
    destruct (search_from r [] None (l1 ++ l2)); [reflexivity | contradiction].
Qed.

Section Star.
Context {R : Type} (k : Cursor -> option R).
Hypothesis Hk : forall c, k c <> None.

Lemma star_class_succeeds p l b caps : star_class p b l caps k <> None.
Proof.
  revert b. induction l as [|x l IH]; intros b; cbn; [apply Hk|].
  destruct (p x); [|apply Hk].
  specialize (IH (Some x)). destruct (star_class p (Some x) l caps k); [discriminate | contradiction].
Qed.

End Star.

(** *** The two patterns of [buildFinalQuery] *)

Lemma type_here_iff b l :
  match_here re_has_type b l <> None <-> key_here type_key b l.
Proof.
  unfold key_here, type_key. split.
  - unfold match_here, re_has_type. cbn [seq_of lit of_string list_ascii_of_string map match_at].
    unfold at_boundary. cbn [behind ahead captures].
    destruct l as [|x0 l]; [cbn; destruct (word_at b); cbn; contradiction|].
    cbn [hd_error word_at]. intros H.
    destruct (xorb (word_at b) (is_word x0)) eqn:Hb; [|contradiction].
    cbn [ahead] in H. unfold is_char in H.
    destruct (Ascii.eqb_spec "t" x0) as [<-|]; [|contradiction].
    destruct l as [|x1 l]; [contradiction|]. cbn [ahead captures] in H.
    destruct (Ascii.eqb_spec "y" x1) as [<-|]; [|contradiction].
    destruct l as [|x2 l]; [contradiction|]. cbn [ahead captures] in H.
    destruct (Ascii.eqb_spec "p" x2) as [<-|]; [|contradiction].
    destruct l as [|x3 l]; [contradiction|]. cbn [ahead captures] in H.
    destruct (Ascii.eqb_spec "e" x3) as [<-|]; [|contradiction].
    destruct l as [|x4 l]; [contradiction|]. cbn [ahead captures] in H.
    destruct (Ascii.eqb_spec ":" x4) as [<-|]; [|contradiction].
    destruct l as [|x5 l]; [contradiction|]. cbn [ahead captures] in H.
    destruct (is_word x5) eqn:Hw; [|contradiction].
    split; [now destruct (word_at b)|].
    exists (of_string "type:" ++ [x5]), l. split; [reflexivity|]. now exists x5.
  - intros [Hb [key [rest [-> [c [-> Hw]]]]]].
    unfold match_here, re_has_type. cbn [seq_of lit of_string list_ascii_of_string map match_at app].
    unfold at_boundary. cbn [behind ahead captures hd_error word_at]. rewrite Hb.
    cbn. rewrite Hw. apply star_class_succeeds. discriminate.
Qed.

Lemma count_here_iff b l :
  match_here re_has_count b l <> None <-> key_here count_key b l.
Proof.
  unfold key_here, count_key. split.
  - unfold match_here, re_has_count. cbn [seq_of lit of_string list_ascii_of_string map match_at].
    unfold at_boundary. cbn [behind ahead captures].
    destruct l as [|x0 l]; [cbn; destruct (word_at b); cbn; contradiction|].
    cbn [hd_error word_at]. intros H.
    destruct (xorb (word_at b) (is_word x0)) eqn:Hb; [|contradiction].
    cbn [ahead] in H. unfold is_char in H.
    destruct (Ascii.eqb_spec "c" x0) as [<-|]; [|contradiction].
    destruct l as [|x1 l]; [contradiction|]. cbn [ahead captures] in H.
    destruct (Ascii.eqb_spec "o" x1) as [<-|]; [|contradiction].
    destruct l as [|x2 l]; [contradiction|]. cbn [ahead captures] in H.
    destruct (Ascii.eqb_spec "u" x2) as [<-|]; [|contradiction].
    destruct l as [|x3 l]; [contradiction|]. cbn [ahead captures] in H.
    destruct (Ascii.eqb_spec "n" x3) as [<-|]; [|contradiction].
    destruct l as [|x4 l]; [contradiction|]. cbn [ahead captures] in H.
    destruct (Ascii.eqb_spec "t" x4) as [<-|]; [|contradiction].
    destruct l as [|x5 l]; [contradiction|]. cbn [ahead captures] in H.
    destruct (Ascii.eqb_spec ":" x5) as [<-|]; [|contradiction].
    split; [now destruct (word_at b)|]. now exists (of_string "count:"), l.
  - intros [Hb [key [rest [-> ->]]]].
    unfold match_here, re_has_count. cbn [seq_of lit of_string list_ascii_of_string map match_at app].
    unfold at_boundary. cbn [behind ahead captures hd_error word_at]. rewrite Hb.
    cbn. discriminate.
Qed.


Lemma test_type_iff s : test re_has_type s = true <-> key_found type_key (of_string s).
Proof.
  rewrite test_iff. unfold key_found.
  split; intros [l1 [l2 [E H]]]; exists l1, l2; (split; [exact E|]);
    now apply type_here_iff.
Qed.

Lemma test_count_iff s : test re_has_count s = true <-> key_found count_key (of_string s).
Proof.
  rewrite test_iff. unfold key_found.
  split; intros [l1 [l2 [E H]]]; exists l1, l2; (split; [exact E|]);
    now apply count_here_iff.
Qed.

Lemma word_not_space c : is_word c = true -> is_space c = false.
Proof.
  destruct c as [[] [] [] [] [] [] [] []]; vm_compute; congruence.
Qed.

Lemma type_key_solid key : type_key key -> solid key.
Proof.
  intros [c [-> Hw]]. repeat split; [discriminate|].
  rewrite rev_app_distr. cbn. now apply word_not_space.
Qed.

Lemma count_key_solid key : count_key key -> solid key.
Proof. intros ->. repeat split. discriminate. Qed.

Lemma last_of_snoc l x b : last_of (l ++ [x]) b = Some x.
Proof. unfold last_of. now rewrite rev_app_distr. Qed.

Lemma last_of_app l m b : m <> [] -> last_of (l ++ m) b = last_of m b.
Proof.
  intros Hm. unfold last_of. rewrite rev_app_distr.
  destruct (rev m) as [|y r] eqn:E; [|reflexivity].
  apply (f_equal (@rev _)) in E. rewrite rev_involutive in E. contradiction.
Qed.

Section Keys.
Variable K : chars -> Prop.
Hypothesis K_solid : forall key, K key -> solid key.

(** Text added behind keeps a key text that was found. *)
Lemma key_found_app l x : key_found K l -> key_found K (l ++ x).
Proof.
  intros [l1 [l2 [-> [Hb [key [rest [-> Hk]]]]]]].
  exists l1, (key ++ rest ++ x). split; [now rewrite <- !app_assoc|].
  split; [exact Hb|]. now exists key, (rest ++ x).
Qed.

(** A key text added behind a blank is found. *)
Lemma key_found_appended l l2 :
  key_here K (Some " "%char) l2 -> key_found K (l ++ " "%char :: l2).
Proof.
  intros H. exists (l ++ [" "%char]), l2. split; [now rewrite <- app_assoc|].
  now rewrite last_of_snoc.
Qed.

(** Removing leading whitespace keeps it. *)
Lemma key_found_trim_start l : key_found K l -> key_found K (trim_start l).
Proof.
  intros [l1 [l2 [E [Hb [key [rest [-> Hk]]]]]]].
  destruct (trim_start_blank_suffix l) as [sp [Hsp Hblank]].
  destruct (K_solid _ Hk) as [Hne [Hhead _]].
  destruct key as [|k0 key]; [contradiction|]. cbn in Hhead.
  rewrite E in Hsp at 1. apply app_eq_app in Hsp. destruct Hsp as [m [[E1 E2]|[E1 E2]]].
  - (* the key text starts after the whitespace *)
    exists m, ((k0 :: key) ++ rest). split; [exact E2|].
    split; [|now exists (k0 :: key), rest].
    destruct m as [|y m]; [reflexivity|].
    rewrite E1, last_of_app in Hb by discriminate. exact Hb.
  - (* the key text cannot start inside the whitespace *)
    destruct m as [|y m].
    + cbn in E2. exists [], ((k0 :: key) ++ rest). split; [now rewrite <- E2|].
      split; [reflexivity|]. now exists (k0 :: key), rest.
    + cbn in E2. injection E2 as <- _.
      rewrite E1 in Hblank. apply Forall_app in Hblank. destruct Hblank as [_ Hblank].
      inversion Hblank; congruence.
Qed.

(** Removing trailing whitespace keeps it. *)
Lemma key_found_trim_end u sp :
  Forall (fun c => is_space c = true) sp -> key_found K (u ++ sp) -> key_found K u.
Proof.
  intros Hblank [l1 [l2 [E [Hb [key [rest [-> Hk]]]]]]].
  destruct (K_solid _ Hk) as [Hne [_ Hlast]].
  rewrite app_assoc in E. apply app_eq_app in E. destruct E as [m [[E1 E2]|[E1 E2]]].
  - (* what follows the key text reaches into the whitespace *)
    exists l1, (key ++ m). split; [now rewrite app_assoc|].
    split; [exact Hb|]. now exists key, m.
  - (* the key text cannot end inside the whitespace *)
    destruct m as [|y m].
    + rewrite app_nil_r in E1. exists l1, (key ++ []). split; [now rewrite app_nil_r|].
      split; [exact Hb|]. now exists key, [].
    + exfalso. apply (f_equal (@rev _)) in E1. rewrite !rev_app_distr in E1.
      destruct (rev key) as [|z rk] eqn:Ek.
      { apply (f_equal (@rev _)) in Ek. rewrite rev_involutive in Ek. contradiction. }
      cbn in Hlast.
      assert (Hin : In z sp).
      { rewrite E2. apply in_or_app. left. apply in_rev.
        destruct (rev (y :: m)) as [|z' r'] eqn:Em.
        - apply (f_equal (@rev _)) in Em. rewrite rev_involutive in Em. discriminate.
        - cbn in E1. injection E1 as -> _. now left. }
      rewrite Forall_forall in Hblank. specialize (Hblank _ Hin). congruence.
Qed.

(** [trim] keeps it. *)
Lemma key_found_trim l : key_found K l -> key_found K (trim_chars l).
Proof.
  intros H. apply key_found_trim_start in H. unfold trim_chars.
  set (t := trim_start l) in *.
  destruct (trim_start_blank_suffix (rev t)) as [sp [Hsp Hblank]].
  apply (f_equal (@rev _)) in Hsp. rewrite rev_involutive, rev_app_distr in Hsp.
  rewrite Hsp in H. apply key_found_trim_end in H; [exact H|].
  rewrite Forall_forall in *. intros c Hc. apply Hblank. now apply in_rev in Hc.
Qed.

End Keys.

Lemma of_string_to_string l : of_string (to_string l) = l.
Proof. apply list_ascii_of_string_of_list_ascii. Qed.

Lemma complete_result q d :
  word_start d ->
  test re_has_type (complete q d) = true /\
  test re_has_count (complete q d) = true /\
  trim (complete q d) = complete q d.
Proof.
  intros Hd. unfold complete.
  set (q1 := if negb (test re_has_type q) then (q ++ " type:" ++ d)%string else q).
  set (q2 := if negb (test re_has_count q1) then (q1 ++ " count:all")%string else q1).
  assert (H1 : key_found type_key (of_string q1)).
  { subst q1. destruct (test re_has_type q) eqn:E; cbn [negb].
    - now apply test_type_iff.
    - rewrite of_string_app. destruct d as [|c d]; [contradiction|]. cbn in Hd.
      apply key_found_appended. split; [reflexivity|].
      exists (of_string "type:" ++ [c]), (of_string d). split; [reflexivity|].
      now exists c. }
  assert (H2 : key_found type_key (of_string q2) /\ key_found count_key (of_string q2)).
  { subst q2. destruct (test re_has_count q1) eqn:E; cbn [negb].
    - split; [exact H1 | now apply test_count_iff].
    - rewrite of_string_app. split; [now apply key_found_app|].
      apply key_found_appended. split; [reflexivity|].
      now exists (of_string "count:"), (of_string "all"). }
  destruct H2 as [Ht Hc]. unfold trim. split; [|split].
  - apply test_type_iff. rewrite of_string_to_string.
    apply key_found_trim; [exact type_key_solid | exact Ht].
  - apply test_count_iff. rewrite of_string_to_string.
    apply key_found_trim; [exact count_key_solid | exact Hc].
  - now rewrite !of_string_to_string, trim_chars_idem.
Qed.

Lemma complete_fixed r d :
  test re_has_type r = true -> test re_has_count r = true -> trim r = r ->
  complete r d = r.
Proof.
  intros Ht Hc Hr. unfold complete. rewrite Ht. cbn [negb]. rewrite Hc. exact Hr.
Qed.

(** X26. Whatever [buildFinalQuery] returns, from a direct query or from
    the translator, names a result type and a count and has no whitespace at
    either end, provided [defaultType] starts with a word character. *)
Theorem buildFinalQuery_result_is_complete loaded answer q isDirect d w r w' :
  word_start d ->
  buildFinalQuery loaded answer q isDirect d w = (Returned r, w') ->
  test re_has_type r = true /\ test re_has_count r = true /\ trim r = r.
Proof.
  intros Hd H. unfold buildFinalQuery, bind in H.
  destruct ((if isDirect then ret (trim q)
             else McpServer.convertQueryToSourcegraphSyntax loaded answer q) w)
    as [[q0|e] w0]; [|discriminate].
  unfold ret in H. injection H as <- _. now apply complete_result.
Qed.

Lemma buildFinalQuery_result_is_complete_witness :
  test re_has_type "foo type:file count:all" = true /\
  test re_has_count "foo type:file count:all" = true /\
  trim "foo type:file count:all" = "foo type:file count:all".
Proof.
  apply (buildFinalQuery_result_is_complete
           (mkEnv None None None None None None None) (fun _ => Thrown (mkError "offline")) " foo " true "file"
           (mkWorld (mkEnv None None None None None None None) []) _ (mkWorld (mkEnv None None None None None None None) []));
    reflexivity.
Defined.

(** X27. In direct mode [buildFinalQuery] sends nothing and always returns,
    and a query it has built once passes through it unchanged, whatever
    default type the second call names. *)
Theorem buildFinalQuery_direct_is_idempotent loaded answer q d d' w :
  word_start d ->
  buildFinalQuery loaded answer q true d w = (Returned (complete (trim q) d), w) /\
  buildFinalQuery loaded answer (complete (trim q) d) true d' w
    = (Returned (complete (trim q) d), w).
Proof.
  intros Hd. split; [reflexivity|].
  destruct (complete_result (trim q) d Hd) as [Ht [Hc Hr]].
  unfold buildFinalQuery, bind, ret. rewrite Hr. now rewrite complete_fixed.
Qed.

Lemma buildFinalQuery_direct_is_idempotent_witness :
  buildFinalQuery (mkEnv None None None None None None None) (fun _ => Thrown (mkError "offline"))
    "repo:a/b handler" true "commit" (mkWorld (mkEnv None None None None None None None) [])
    = (Returned "repo:a/b handler type:commit count:all", mkWorld (mkEnv None None None None None None None) []) /\
  buildFinalQuery (mkEnv None None None None None None None) (fun _ => Thrown (mkError "offline"))
    "repo:a/b handler type:commit count:all" true "diff" (mkWorld (mkEnv None None None None None None None) [])
    = (Returned "repo:a/b handler type:commit count:all", mkWorld (mkEnv None None None None None None None) []).
Proof.
  apply (buildFinalQuery_direct_is_idempotent
           (mkEnv None None None None None None None) (fun _ => Thrown (mkError "offline"))
           "repo:a/b handler" "commit" "diff" (mkWorld (mkEnv None None None None None None None) [])).
  reflexivity.
Defined.

End SearchRoutesFacts.
